(** * AnimalChess: the rules engine of the hidden-information animal chess

    A shallow embedding of the game logic of the React application
    (constants.ts, types.ts and the two variants of App.tsx) together with
    the properties of its topology, move generator, combat rule and
    state transition.

    Conventions of the embedding.
    - A JavaScript [number] used as an index or a rank is an integer of [Z];
      [a % b] is the truncating [Z.rem], [Math.floor (a / b)] the flooring
      [Z.div].
    - An array is a [list]; [arr[i]] is [at_index arr i] below, which is
      [None] where JavaScript yields [undefined] (negative or too large an
      index).
    - Reading a property of [undefined] or [null] raises a [TypeError]; the
      functions that can do so return an [option] or an [Outcome] that
      records it.
    - [Math.random] and the engine's sort are not part of the program: the
      shuffled deck is an argument of [initGame].
    - Actions are applied one at a time, so the [prev] of a state update is
      the state the handler has read. *)

From Stdlib Require Import ZArith Lia.
From stdpp Require Import base tactics option list numbers strings pretty.

Open Scope Z_scope.

(** ** types.ts *)

Inductive AnimalType :=
  ELEPHANT | LION | TIGER | LEOPARD | WOLF | DOG | CAT | RAT.

Inductive PlayerColor := RED | BLUE.

#[global] Instance AnimalType_eq_dec : EqDecision AnimalType.
Proof. solve_decision. Defined.

#[global] Instance PlayerColor_eq_dec : EqDecision PlayerColor.
Proof. solve_decision. Defined.

Record Piece := mkPiece {
  id : string;
  type : AnimalType;
  color : PlayerColor;
  rank : Z;
}.

#[global] Instance Piece_eq_dec : EqDecision Piece.
Proof. solve_decision. Defined.

Record Cell := mkCell {
  index : Z;
  piece : option Piece;
  isRevealed : bool;
}.

#[global] Instance Cell_eq_dec : EqDecision Cell.
Proof. solve_decision. Defined.

(** [winner: PlayerColor | 'DRAW' | null]: [None] is [null]. *)
Inductive Winner := Won (c : PlayerColor) | DRAW.

(** ['HUMAN' | 'AI' | null]: [None] is [null]. *)
Inductive Controller := HUMAN | AI.

#[global] Instance Winner_eq_dec : EqDecision Winner.
Proof. solve_decision. Defined.

#[global] Instance Controller_eq_dec : EqDecision Controller.
Proof. solve_decision. Defined.

Record GameState := mkGameState {
  board : list Cell;
  turn : PlayerColor;
  winner : option Winner;
  redPlayer : option Controller;
  bluePlayer : option Controller;
  userColor : option PlayerColor;
  history : list string;
}.

Record Move := mkMove {
  fromIndex : option Z;
  toIndex : Z;
  isFlip : bool;
}.

#[global] Instance Move_eq_dec : EqDecision Move.
Proof. solve_decision. Defined.

(** ** constants.ts *)

Definition BOARD_SIZE : Z := 4.
Definition TOTAL_CELLS : nat := 17.
Definition CENTER_INDEX : Z := 16.

Definition ANIMAL_RANKS (t : AnimalType) : Z :=
  match t with
  | ELEPHANT => 8 | LION => 7 | TIGER => 6 | LEOPARD => 5
  | WOLF => 4 | DOG => 3 | CAT => 2 | RAT => 1
  end.

Definition ANIMAL_NAMES (t : AnimalType) : string :=
  match t with
  | ELEPHANT => "大象" | LION => "狮子" | TIGER => "老虎" | LEOPARD => "豹"
  | WOLF => "狼" | DOG => "狗" | CAT => "猫" | RAT => "老鼠"
  end.

(** The string value of each member of the enum [AnimalType]. *)
Definition typeValue (t : AnimalType) : string :=
  match t with
  | ELEPHANT => "ELEPHANT" | LION => "LION" | TIGER => "TIGER"
  | LEOPARD => "LEOPARD" | WOLF => "WOLF" | DOG => "DOG" | CAT => "CAT"
  | RAT => "RAT"
  end.

(** [Object.values(AnimalType)], in the order of declaration. *)
Definition types : list AnimalType :=
  [ELEPHANT; LION; TIGER; LEOPARD; WOLF; DOG; CAT; RAT].

(** The [forEach] that fills [INITIAL_DECK]: a red and a blue piece for
    each type, [idCounter] running through both. *)
Fixpoint pushDeck (ts : list AnimalType) (idCounter : nat) : list Piece :=
  match ts with
  | [] => []
  | t :: ts' =>
      mkPiece ("red-" +:+ typeValue t +:+ "-" +:+ pretty idCounter)
              t RED (ANIMAL_RANKS t)
      :: mkPiece ("blue-" +:+ typeValue t +:+ "-" +:+ pretty (S idCounter))
                 t BLUE (ANIMAL_RANKS t)
      :: pushDeck ts' (S (S idCounter))
  end.

Definition INITIAL_DECK : list Piece := pushDeck types 0.

(** ** Arrays indexed by a JavaScript number *)

(** [arr[i]]: [None] stands for [undefined]. *)
Definition at_index {A} (arr : list A) (i : Z) : option A :=
  if decide (0 <= i) then arr !! Z.to_nat i else None.

(** [arr.includes(x)] *)
Definition includes (arr : list Z) (x : Z) : bool := bool_decide (x ∈ arr).

(** ** Topology (App.tsx, isAdjacent) *)

Definition isAdjacent (idx1 idx2 : Z) : bool :=
  if decide (idx1 = CENTER_INDEX) then includes [5; 6; 9; 10] idx2
  else if decide (idx2 = CENTER_INDEX) then includes [5; 6; 9; 10] idx1
  else
    let x1 := idx1 `rem` BOARD_SIZE in
    let y1 := idx1 `div` BOARD_SIZE in
    let x2 := idx2 `rem` BOARD_SIZE in
    let y2 := idx2 `div` BOARD_SIZE in
    let dx := Z.abs (x1 - x2) in
    let dy := Z.abs (y1 - y2) in
    (bool_decide (dx = 1) && bool_decide (dy = 0))
    || (bool_decide (dx = 0) && bool_decide (dy = 1)).

(** ** Move generator (App.tsx, getValidMoves) *)

(** The array [neighbors] built for the cell of index [idx]. *)
Definition neighborsOf (idx : Z) : list Z :=
  if decide (idx ≠ CENTER_INDEX) then
    let x := idx `rem` BOARD_SIZE in
    let y := idx `div` BOARD_SIZE in
    (if decide (x > 0) then [idx - 1] else [])
    ++ (if decide (x < 3) then [idx + 1] else [])
    ++ (if decide (y > 0) then [idx - 4] else [])
    ++ (if decide (y < 3) then [idx + 4] else [])
    ++ (if includes [5; 6; 9; 10] idx then [CENTER_INDEX] else [])
  else [5; 6; 9; 10].

(** The three assignments to [canAttack] of the attack logic, in order. *)
Definition canAttack (attacker defender : Piece) : bool :=
  let myRank := rank attacker in
  let targetRank := rank defender in
  let canAttack := false in
  let canAttack := if decide (myRank >= targetRank) then true else canAttack in
  let canAttack :=
    if decide (type attacker = RAT ∧ type defender = ELEPHANT)
    then true else canAttack in
  let canAttack :=
    if decide (type attacker = ELEPHANT ∧ type defender = RAT)
    then false else canAttack in
  canAttack.

(** A [forEach] whose body pushes moves and may raise: the moves pushed by
    the visits in order, or [None] as soon as a visit raises. *)
Fixpoint forEachPush {A B} (f : A → option (list B)) (l : list A)
  : option (list B) :=
  match l with
  | [] => Some []
  | a :: l' =>
      match f a with
      | None => None
      | Some ms =>
          match forEachPush f l' with
          | None => None
          | Some rest => Some (ms ++ rest)
          end
      end
  end.

(** The body of [neighbors.forEach]: [cell] holds [p], of the player's
    color. [None] is the [TypeError] of reading [targetCell.piece] or
    [targetCell.isRevealed] when [board[targetIdx]] is [undefined]. *)
Definition visitTarget (board : list Cell) (playerColor : PlayerColor)
    (cell : Cell) (p : Piece) (targetIdx : Z) : option (list Move) :=
  let move := mkMove (Some (index cell)) targetIdx false in
  if decide (targetIdx = CENTER_INDEX ∧ type p ≠ RAT) then Some []
  else
    match at_index board targetIdx with
    | None => None
    | Some targetCell =>
        if decide (targetIdx = CENTER_INDEX ∧ is_Some (piece targetCell))
        then Some []
        else if negb (isRevealed targetCell) then Some []
        else
          match piece targetCell with
          | None => Some [move]
          | Some target =>
              if decide (color target ≠ playerColor)
              then if canAttack p target then Some [move] else Some []
              else Some []
          end
    end.

(** The body of [board.forEach]. *)
Definition visitCell (board : list Cell) (playerColor : PlayerColor)
    (cell : Cell) : option (list Move) :=
  if negb (isRevealed cell) then Some [mkMove None (index cell) true]
  else
    match piece cell with
    | Some p =>
        if decide (color p = playerColor)
        then forEachPush (visitTarget board playerColor cell p)
                         (neighborsOf (index cell))
        else Some []
    | None => Some []
    end.

Definition getValidMoves (board : list Cell) (playerColor : PlayerColor)
  : option (list Move) :=
  forEachPush (visitCell board playerColor) board.

(** ** State transition (App.tsx, initGame and handleMove) *)

Inductive GameMode := PVE | PVP.

#[global] Instance GameMode_eq_dec : EqDecision GameMode.
Proof. solve_decision. Defined.

(** How a handler ends: [Returned] without applying an action, [Threw] by a
    [TypeError], [Committed] by applying an action through the state update
    at its end. Each carries the state the handler leaves behind. *)
Inductive Outcome (S : Type) :=
  | Returned (s : S)
  | Threw (s : S)
  | Committed (s : S).

Arguments Returned {S} s.
Arguments Threw {S} s.
Arguments Committed {S} s.

Definition getColorName (c : PlayerColor) : string :=
  if decide (c = RED) then "红方" else "蓝方".

(** [initGame], given the deck that the shuffle produced. *)
Definition initGame (deck : list Piece) : GameState :=
  let newBoard :=
    (λ i : nat,
       let index := Z.of_nat i in
       if decide (index = CENTER_INDEX) then mkCell index None true
       else mkCell index (deck !! i) false) <$> seq 0 TOTAL_CELLS in
  mkGameState newBoard RED None None None None ["游戏开始。请翻开一张牌！"].

(** What the sort of [initGame] may return: some arrangement of the deck.
    Which one, and how likely, is up to [Math.random] and the engine. *)
Definition shuffled (deck : list Piece) : Prop := deck ≡ₚ INITIAL_DECK.

Definition unrevealedCount (b : list Cell) : nat :=
  length (filter (λ c, isRevealed c = false) b).

(** [board.filter(c => c.piece?.color === col).length] *)
Definition colorCount (col : PlayerColor) (b : list Cell) : nat :=
  length (filter (λ c, color <$> piece c = Some col) b).

(** The win check of [handleMove] on the board after the action. *)
Definition checkWinner (nextBoard : list Cell) : option PlayerColor :=
  if decide (unrevealedCount nextBoard = 0%nat) then
    let realRedCount := colorCount RED nextBoard in
    let realBlueCount := colorCount BLUE nextBoard in
    if decide (realRedCount = 0%nat ∧ realBlueCount = 0%nat) then None
    else if decide (realRedCount = 0%nat) then Some BLUE
    else if decide (realBlueCount = 0%nat) then Some RED
    else None
  else None.

(** The color binding of a first flip: [(userColor, redPlayer, bluePlayer)]. *)
Definition assignColors (gameMode : GameMode) (aiThinking : bool)
    (gs : GameState) (p : Piece)
  : option PlayerColor * option Controller * option Controller :=
  if decide (userColor gs = None) then
    if decide (gameMode = PVP) then (Some (color p), Some HUMAN, Some HUMAN)
    else
      let isUserTurn := negb aiThinking in
      if isUserTurn then
        if decide (color p = RED) then (Some RED, Some HUMAN, Some AI)
        else (Some BLUE, Some AI, Some HUMAN)
      else
        if decide (color p = RED) then (Some BLUE, Some AI, Some HUMAN)
        else (Some RED, Some HUMAN, Some AI)
  else (userColor gs, redPlayer gs, bluePlayer gs).

(** The tail of [handleMove]: win check and state update. *)
Definition commit (gs : GameState) (nextBoard : list Cell)
    (logMessage : string)
    (next : option PlayerColor * option Controller * option Controller)
  : GameState :=
  let '(nextUserColor, nextRedPlayer, nextBluePlayer) := next in
  let nextWinner := checkWinner nextBoard in
  let logMessage :=
    match nextWinner with
    | Some w => logMessage +:+ " 游戏结束! " +:+ getColorName w +:+ " 获胜!"
    | None => logMessage
    end in
  mkGameState nextBoard
    (if decide (turn gs = RED) then BLUE else RED)
    (Won <$> nextWinner)
    nextRedPlayer nextBluePlayer nextUserColor
    (take 50 (logMessage :: history gs)).

(** [handleMove] of the variant with a game mode; the variant without one
    is this function at [PVP]. The cells of [nextBoard] are the objects of
    [gameState.board]: the flip writes [isRevealed] into the shared cell, so
    the write survives the [TypeError] of a flipped cell without a piece. *)
Definition handleMove (gameMode : GameMode) (aiThinking : bool)
    (gs : GameState) (move : Move) : Outcome GameState :=
  if decide (is_Some (winner gs)) then Returned gs
  else
    let nextBoard := board gs in
    let currentCell :=
      match fromIndex move with
      | Some i => at_index nextBoard i
      | None => None
      end in
    let targetCell := at_index nextBoard (toIndex move) in
    let keep := (userColor gs, redPlayer gs, bluePlayer gs) in
    if isFlip move then
      match targetCell with
      | None => Threw gs
      | Some t =>
          let nextBoard :=
            <[Z.to_nat (toIndex move) := mkCell (index t) (piece t) true]>
              nextBoard in
          match piece t with
          | None =>
              Threw (mkGameState nextBoard (turn gs) (winner gs)
                       (redPlayer gs) (bluePlayer gs) (userColor gs)
                       (history gs))
          | Some p =>
              let logMessage :=
                "翻出了 " +:+ getColorName (color p) +:+ " "
                +:+ ANIMAL_NAMES (type p) in
              Committed (commit gs nextBoard logMessage
                           (assignColors gameMode aiThinking gs p))
          end
      end
    else
      match currentCell with
      | None => Returned gs
      | Some c =>
          match piece c with
          | None => Returned gs
          | Some attacker =>
              match targetCell with
              | None => Threw gs
              | Some t =>
                  let defender := piece t in
                  let from := Z.to_nat (default 0 (fromIndex move)) in
                  let to := Z.to_nat (toIndex move) in
                  let nextBoard :=
                    <[to := mkCell (index t) (Some attacker) (isRevealed t)]>
                      nextBoard in
                  let nextBoard :=
                    <[from := mkCell (index c) None (isRevealed c)]>
                      nextBoard in
                  match defender with
                  | Some d =>
                      if decide (rank attacker = rank d) then
                        let nextBoard :=
                          alter (λ x, mkCell (index x) None (isRevealed x))
                                to nextBoard in
                        Committed (commit gs nextBoard
                          (ANIMAL_NAMES (type attacker) +:+ " 与 "
                           +:+ ANIMAL_NAMES (type d) +:+ " 同归于尽") keep)
                      else
                        Committed (commit gs nextBoard
                          (ANIMAL_NAMES (type attacker) +:+ " 吃掉了 "
                           +:+ ANIMAL_NAMES (type d)) keep)
                  | None =>
                      Committed (commit gs nextBoard
                        (ANIMAL_NAMES (type attacker) +:+ " 移动了") keep)
                  end
              end
          end
      end.

(** ** Interaction (App.tsx, handleCellClick) *)

(** The state of the component: the game and the hooks around it. The
    variant without a game mode is this one at [PVP] with [isProcessing] and
    [aiThinking] never set. *)
Record App := mkApp {
  gameMode : GameMode;
  gameState : GameState;
  selectedIndex : option Z;
  isProcessing : bool;
  aiThinking : bool;
}.

Definition setSelectedIndex (sel : option Z) (app : App) : App :=
  mkApp (gameMode app) (gameState app) sel (isProcessing app) (aiThinking app).

(** [handleMove] within the component: a committed action also clears the
    selection. *)
Definition handleMoveApp (app : App) (move : Move) : Outcome App :=
  match handleMove (gameMode app) (aiThinking app) (gameState app) move with
  | Returned _ => Returned app
  | Threw gs =>
      Threw (mkApp (gameMode app) gs (selectedIndex app) (isProcessing app)
               (aiThinking app))
  | Committed gs =>
      Committed (mkApp (gameMode app) gs None (isProcessing app)
                   (aiThinking app))
  end.

Definition isMyTurn (gs : GameState) : bool :=
  bool_decide (turn gs = RED ∧ redPlayer gs ≠ Some AI)
  || bool_decide (turn gs = BLUE ∧ bluePlayer gs ≠ Some AI)
  || bool_decide (redPlayer gs = None).

Definition handleCellClick (app : App) (index : Z) : Outcome App :=
  let gs := gameState app in
  if bool_decide (is_Some (winner gs)) || isProcessing app || aiThinking app
  then Returned app
  else if bool_decide (gameMode app = PVE) && negb (isMyTurn gs)
  then Returned app
  else
    match at_index (board gs) index with
    | None => Threw app
    | Some cell =>
        if negb (isRevealed cell) then
          match selectedIndex app with
          | Some _ => Returned (setSelectedIndex None app)
          | None => handleMoveApp app (mkMove None index true)
          end
        else
          let ownPiece :=
            match piece cell with
            | Some p => bool_decide (color p = turn gs)
            | None => false
            end in
          match selectedIndex app with
          | None =>
              if ownPiece then Returned (setSelectedIndex (Some index) app)
              else Returned app
          | Some sel =>
              if decide (index = sel) then Returned (setSelectedIndex None app)
              else
                match getValidMoves (board gs) (turn gs) with
                | None => Threw app
                | Some validMoves =>
                    match List.find
                            (λ m, bool_decide (fromIndex m = Some sel
                                               ∧ toIndex m = index))
                            validMoves with
                    | Some move => handleMoveApp app move
                    | None =>
                        if ownPiece
                        then Returned (setSelectedIndex (Some index) app)
                        else Returned (setSelectedIndex None app)
                    end
                end
          end
    end.

(** ** Rendering (App.tsx, the highlight of the pieces layer) *)

(** The attack test of the highlight: [canAttack] starts from the rank
    test, then the two overrides. *)
Definition canAttackShown (mine target : Piece) : bool :=
  let myRank := rank mine in
  let enemyRank := rank target in
  let canAttack := bool_decide (myRank >= enemyRank) in
  let canAttack :=
    if decide (type mine = RAT ∧ type target = ELEPHANT)
    then true else canAttack in
  let canAttack :=
    if decide (type mine = ELEPHANT ∧ type target = RAT)
    then false else canAttack in
  canAttack.

(** [isValidTarget] as the render computes it for [cell]. [None] is the
    [TypeError] of reading [fromCell.piece] when [board[selectedIndex]] is
    [undefined], or the rank of a missing piece. *)
Definition isValidTarget (gs : GameState) (selectedIndex : option Z)
    (cell : Cell) : option bool :=
  match selectedIndex with
  | None => Some false
  | Some sel =>
      if bool_decide (index cell ≠ sel) && isAdjacent sel (index cell) then
        let fromCell := at_index (board gs) sel in
        let canEnter :=
          if decide (index cell = CENTER_INDEX) then
            match fromCell with
            | None => None
            | Some f =>
                Some (bool_decide (type <$> piece f = Some RAT)
                      && bool_decide (piece cell = None))
            end
          else Some true in
        match canEnter with
        | None => None
        | Some false => Some false
        | Some true =>
            if negb (isRevealed cell) then Some false
            else
              match piece cell with
              | None => Some true
              | Some target =>
                  if decide (color target ≠ turn gs) then
                    match fromCell ≫= piece with
                    | None => None
                    | Some mine => Some (canAttackShown mine target)
                    end
                  else Some false
              end
        end
      else Some false
  end.

(** ** The automated player (services/geminiService.ts, getAIMove) *)



(** ** Notions of the specification *)

(** Grid coordinates of the cells 0 to 15. *)
Definition col (i : Z) : Z := i `mod` 4.
Definition row (i : Z) : Z := i `div` 4.
Definition manhattan (a b : Z) : Z :=
  Z.abs (col a - col b) + Z.abs (row a - row b).

(** A board as [initGame] builds it and [handleMove] keeps it: 17 cells,
    each carrying its own position. *)
Definition wf_board (b : list Cell) : Prop :=
  length b = TOTAL_CELLS ∧ ∀ (i : nat) c, b !! i = Some c → index c = Z.of_nat i.

(** The combat rule in the words of the specification: the rank test, the
    Rat beating the Elephant, and the Elephant never beating the Rat, the
    last taking precedence. *)
Definition canCapture (attacker defender : Piece) : Prop :=
  if decide (type attacker = ELEPHANT ∧ type defender = RAT) then False
  else if decide (type attacker = RAT ∧ type defender = ELEPHANT) then True
  else rank attacker >= rank defender.

(** The cell [j] lets the piece [p] of color [c] in: it is revealed, the
    Center only takes a Rat and only while empty, and a piece standing
    there is an opponent that [p] can attack. *)
Definition enterable (b : list Cell) (c : PlayerColor) (p : Piece) (j : Z)
  : Prop :=
  ∃ tgt,
    at_index b j = Some tgt ∧ isRevealed tgt = true
    ∧ (j = CENTER_INDEX → type p = RAT ∧ piece tgt = None)
    ∧ (∀ d, piece tgt = Some d → color d ≠ c ∧ canAttack p d = true).

(** The revealed piece of color [c] on cell [i] may step to the
    neighbouring cell [j]. *)
Definition legalStep (b : list Cell) (c : PlayerColor) (i j : Z) : Prop :=
  ∃ src p,
    at_index b i = Some src ∧ isRevealed src = true ∧ piece src = Some p
    ∧ color p = c ∧ j ∈ neighborsOf i ∧ enterable b c p j.

(** The board after a step from [i] to [j]: the target takes the attacker,
    or nothing when the defender has its rank; the source is emptied. *)
Definition steppedBoard (b : list Cell) (i j : Z) (src tgt : Cell) (a : Piece) : list Cell :=
  let arriving :=
    match piece tgt with
    | Some d => if decide (rank a = rank d) then None else Some a
    | None => Some a
    end in
  <[Z.to_nat i := mkCell (index src) None (isRevealed src)]>
    (<[Z.to_nat j := mkCell (index tgt) arriving (isRevealed tgt)]> b).

(** Pieces present on the board, hidden or revealed. *)
Definition piecesOnBoard (b : list Cell) : nat :=
  length (filter (λ c, is_Some (piece c)) b).

(** Pieces that applying [move] takes off the board, by the branch of
    [handleMove] that runs: two on a mutual elimination, one on a capture,
    none on a plain move or a flip. *)
Definition removedBy (gs : GameState) (move : Move) : nat :=
  if isFlip move then 0%nat
  else
    match fromIndex move ≫= at_index (board gs),
          at_index (board gs) (toIndex move) with
    | Some c, Some t =>
        match piece c, piece t with
        | Some attacker, Some d =>
            if decide (rank attacker = rank d) then 2%nat else 1%nat
        | _, _ => 0%nat
        end
    | _, _ => 0%nat
    end.

(** Every hidden cell holds a piece, and the Center is revealed: what the
    flip and the Center gate of the generator rely on. *)
Definition hiddenHoldPieces (b : list Cell) : Prop :=
  ∀ c, c ∈ b → isRevealed c = false → is_Some (piece c).

Definition centerRevealed (b : list Cell) : Prop :=
  ∃ c, at_index b CENTER_INDEX = Some c ∧ isRevealed c = true.

(** The invariant of the game: [n] is the number of pieces removed so far. *)
Definition Inv (gs : GameState) (n : nat) : Prop :=
  wf_board (board gs) ∧ hiddenHoldPieces (board gs)
  ∧ centerRevealed (board gs)
  ∧ (piecesOnBoard (board gs) + n = 16)%nat
  ∧ (is_Some (winner gs) → unrevealedCount (board gs) = 0%nat).

(** [Reach gs n]: the game reaches [gs] from a freshly built board by legal
    actions, which removed [n] pieces on the way. *)
Inductive Reach : GameState → nat → Prop :=
  | Reach_init deck :
      shuffled deck → Reach (initGame deck) 0
  | Reach_step gs n gameMode aiThinking move moves gs' :
      Reach gs n →
      getValidMoves (board gs) (turn gs) = Some moves →
      move ∈ moves →
      handleMove gameMode aiThinking gs move = Committed gs' →
      Reach gs' (n + removedBy gs move).

Definition reachable (gs : GameState) : Prop := ∃ n, Reach gs n.

(** ** Notions for the further properties *)

(** The state a handler leaves behind, however it ends. *)
Definition stateOf {S} (o : Outcome S) : S :=
  match o with
  | Returned s | Threw s | Committed s => s
  end.

(** A cell keeps its place and, once revealed, stays revealed. *)
Definition cellKept (c c' : Cell) : Prop :=
  index c' = index c ∧ (isRevealed c = true → isRevealed c' = true).

(** The pieces standing on the board, in the order of the cells. *)
Definition piecesOf (b : list Cell) : list Piece := omap piece b.

(** The piece on the cell at position [k], if any. *)
Definition pieceAt (b : list Cell) (k : nat) : option Piece :=
  b !! k ≫= piece.

(** No piece stands on two cells. *)
Definition distinctPieces (b : list Cell) : Prop :=
  ∀ (k1 k2 : nat) c1 c2 p,
    b !! k1 = Some c1 → b !! k2 = Some c2 →
    piece c1 = Some p → piece c2 = Some p → k1 = k2.

Definition controllerOf (gs : GameState) (c : PlayerColor)
  : option Controller :=
  if decide (c = RED) then redPlayer gs else bluePlayer gs.

Definition opponent (c : PlayerColor) : PlayerColor :=
  if decide (c = RED) then BLUE else RED.

(** The binding of the colors is absent altogether, or complete with the
    user's color in human hands. *)
Definition bindingConsistent (gs : GameState) : Prop :=
  (userColor gs = None ∧ redPlayer gs = None ∧ bluePlayer gs = None)
  ∨ (∃ c, userColor gs = Some c ∧ controllerOf gs c = Some HUMAN
          ∧ is_Some (controllerOf gs (opponent c))).

(** The selection, if any, is a revealed piece of the player to move. *)
Definition selectionOk (app : App) : Prop :=
  ∀ sel, selectedIndex app = Some sel →
    ∃ cell p, at_index (board (gameState app)) sel = Some cell
              ∧ isRevealed cell = true ∧ piece cell = Some p
              ∧ color p = turn (gameState app).

(** ** Positions used as examples *)

Definition emptyBoard : list Cell :=
  (λ i : nat, mkCell (Z.of_nat i) None true) <$> seq 0 TOTAL_CELLS.

(** The board with the revealed piece [p] put on cell [i]. *)
Definition place (i : Z) (p : Piece) (b : list Cell) : list Cell :=
  <[Z.to_nat i := mkCell i (Some p) true]> b.

Definition redElephant : Piece := mkPiece "red-ELEPHANT-0" ELEPHANT RED 8.
Definition redCat : Piece := mkPiece "red-CAT-12" CAT RED 2.
Definition blueCat : Piece := mkPiece "blue-CAT-13" CAT BLUE 2.
Definition redRat : Piece := mkPiece "red-RAT-14" RAT RED 1.
Definition blueRat : Piece := mkPiece "blue-RAT-15" RAT BLUE 1.

(** A game under way between two humans, [c] to move. *)
Definition inPlay (b : list Cell) (c : PlayerColor) : GameState :=
  mkGameState b c None (Some HUMAN) (Some HUMAN) (Some RED) [].

(** A revealed Red Rat on cell 5, next to the empty Center. *)
Definition ratByCenter : list Cell := place 5 redRat emptyBoard.

(** The Red Elephant on cell 0 beside the Blue Rat on cell 1. *)
Definition elephantAndRat : list Cell :=
  place 1 blueRat (place 0 redElephant emptyBoard).

(** The last two pieces, both Cats, side by side; nothing is hidden. *)
Definition lastTwoCats : list Cell :=
  place 1 blueCat (place 0 redCat emptyBoard).

(** The moves applied in turn; a move that does not commit changes
    nothing. *)
Fixpoint play (moves : list Move) (gs : GameState) : GameState :=
  match moves with
  | [] => gs
  | m :: moves' =>
      match handleMove PVP false gs m with
      | Committed gs' => play moves' gs'
      | _ => play moves' gs
      end
  end.

(** On the unshuffled deck: two flips reveal the Elephants on cells 0 and
    1, then Red's Elephant takes Blue's. *)
Definition elephantsTrade : list Move :=
  [mkMove None 0 true; mkMove None 1 true; mkMove (Some 0) 1 false].

(** Every move of the list is offered by the generator to the player to
    move and commits. *)
Fixpoint legalPlay (moves : list Move) (gs : GameState) : bool :=
  match moves with
  | [] => true
  | m :: moves' =>
      match getValidMoves (board gs) (turn gs),
            handleMove PVP false gs m with
      | Some ms, Committed gs' => bool_decide (m ∈ ms) && legalPlay moves' gs'
      | _, _ => false
      end
  end.

(** A whole game on the unshuffled deck: every cell is flipped, six pairs
    of equal rank take each other, the Blue Cat takes the Red Rat and
    falls together with the Red Cat; the Blue Rat is left alone. *)
Definition blueWinsGame : list Move :=
  ((λ i : nat, mkMove None (Z.of_nat i) true) <$> seq 0 16)
  ++ [mkMove (Some 0) 1 false; mkMove (Some 3) 2 false;
      mkMove (Some 4) 5 false; mkMove (Some 7) 6 false;
      mkMove (Some 8) 9 false; mkMove (Some 11) 10 false;
      mkMove (Some 12) 8 false; mkMove (Some 13) 14 false;
      mkMove (Some 8) 9 false; mkMove (Some 15) 11 false;
      mkMove (Some 9) 13 false; mkMove (Some 14) 13 false].

(** * Topology *)

Section Topology.

Lemma includes_spec (l : list Z) (x : Z) : includes l x = true ↔ x ∈ l.
Proof. unfold includes. apply bool_decide_eq_true. Qed.

Lemma inner_cells (x : Z) :
  x ∈ [5; 6; 9; 10] ↔ x = 5 ∨ x = 6 ∨ x = 9 ∨ x = 10.
Proof.
  rewrite !elem_of_cons, elem_of_nil. intuition.
Qed.

Lemma isAdjacent_sym (a b : Z) : isAdjacent a b = isAdjacent b a.
Proof.
  unfold isAdjacent.
  destruct (decide (a = CENTER_INDEX)) as [-> | Ha],
           (decide (b = CENTER_INDEX)) as [-> | Hb]; try reflexivity.
  cbv zeta.
  assert (∀ x y : Z, Z.abs (x - y) = Z.abs (y - x)) as swap by lia.
  rewrite (swap (a `rem` BOARD_SIZE)), (swap (a `div` BOARD_SIZE)).
  reflexivity.
Qed.

Lemma isAdjacent_irrefl (a : Z) : isAdjacent a a = false.
Proof.
  unfold isAdjacent.
  destruct (decide (a = CENTER_INDEX)) as [-> | Ha]; [reflexivity |].
  cbv zeta. rewrite !Z.sub_diag. reflexivity.
Qed.

Lemma isAdjacent_center_l (b : Z) :
  isAdjacent CENTER_INDEX b = true ↔ b ∈ [5; 6; 9; 10].
Proof. unfold isAdjacent. rewrite decide_True by reflexivity. apply includes_spec. Qed.

Lemma isAdjacent_center_r (a : Z) :
  isAdjacent a CENTER_INDEX = true ↔ a ∈ [5; 6; 9; 10].
Proof. rewrite isAdjacent_sym. apply isAdjacent_center_l. Qed.

Lemma isAdjacent_grid (a b : Z) :
  0 ≤ a ≤ 15 → 0 ≤ b ≤ 15 →
  isAdjacent a b = true ↔ manhattan a b = 1.
Proof.
  intros Ha Hb. unfold isAdjacent, manhattan, col, row, CENTER_INDEX, BOARD_SIZE.
  rewrite !decide_False by lia. cbv zeta.
  rewrite !Z.rem_mod_nonneg by lia.
  rewrite orb_true_iff, !andb_true_iff, !bool_decide_eq_true.
  lia.
Qed.

End Topology.

(** * Move generator *)

Section ForEachPush.
Context {A B : Type} (f : A → option (list B)).

Lemma forEachPush_Some_elem (l : list A) (ms : list B) (x : B) :
  forEachPush f l = Some ms →
  x ∈ ms ↔ ∃ a out, a ∈ l ∧ f a = Some out ∧ x ∈ out.
Proof.
  revert ms. induction l as [| a l IH]; intros ms; simpl.
  - intros [= <-]. split.
    + intros H; inversion H.
    + intros (a & out & H & _); inversion H.
  - destruct (f a) as [out |] eqn:Ea; [| discriminate].
    destruct (forEachPush f l) as [rest |] eqn:El; [| discriminate].
    intros [= <-]. rewrite elem_of_app, (IH rest eq_refl). split.
    + intros [Hx | (a' & out' & Ha' & Hf & Hx)].
      * exists a, out. split_and!; [left | assumption | assumption].
      * exists a', out'. split_and!; [right; assumption | assumption | assumption].
    + intros (a' & out' & Ha' & Hf & Hx).
      apply elem_of_cons in Ha' as [-> | Ha'].
      * left. congruence.
      * right. eauto.
Qed.

Lemma forEachPush_is_Some (l : list A) :
  (∀ a, a ∈ l → is_Some (f a)) → is_Some (forEachPush f l).
Proof.
  induction l as [| a l IH]; intros H; simpl; [eauto |].
  destruct (H a) as [out ->]; [left |].
  destruct IH as [rest ->]; [| eauto].
  intros a' Ha'. apply H. right. assumption.
Qed.

End ForEachPush.

Section MoveGenerator.

Lemma at_index_Some {A} (l : list A) (i : Z) (x : A) :
  at_index l i = Some x ↔ 0 ≤ i ∧ l !! Z.to_nat i = Some x.
Proof.
  unfold at_index. destruct (decide (0 ≤ i)); [tauto |].
  split; [discriminate | lia].
Qed.

Lemma at_index_of_nat {A} (l : list A) (i : nat) :
  at_index l (Z.of_nat i) = l !! i.
Proof.
  unfold at_index. rewrite decide_True by lia. rewrite Nat2Z.id. reflexivity.
Qed.

Lemma at_index_in_range {A} (l : list A) (i : Z) :
  0 ≤ i < Z.of_nat (length l) → is_Some (at_index l i).
Proof.
  intros H. unfold at_index. rewrite decide_True by lia.
  apply lookup_lt_is_Some. lia.
Qed.

Lemma wf_board_index (b : list Cell) (i : Z) (c : Cell) :
  wf_board b → at_index b i = Some c → index c = i ∧ 0 ≤ i ≤ 16.
Proof.
  intros [Hlen Hidx] [Hi Hc]%at_index_Some.
  pose proof (lookup_lt_Some _ _ _ Hc) as Hlt.
  apply Hidx in Hc. unfold TOTAL_CELLS in Hlen. lia.
Qed.

Lemma wf_board_elem (b : list Cell) (c : Cell) :
  wf_board b → c ∈ b → at_index b (index c) = Some c.
Proof.
  intros Hwf (i & Hi)%list_elem_of_lookup.
  destruct Hwf as [_ Hidx]. rewrite (Hidx _ _ Hi), at_index_of_nat. exact Hi.
Qed.

(** The [neighbors] array of a cell lists exactly the cells of the board
    that [isAdjacent] relates to it. *)
Lemma neighborsOf_adjacent (i j : Z) :
  0 ≤ i ≤ 16 →
  j ∈ neighborsOf i ↔ 0 ≤ j ≤ 16 ∧ isAdjacent i j = true.
Proof.
  intros Hi.
  assert (i ∈ seqZ 0 17) as Hin by (apply elem_of_seqZ; lia).
  cbv in Hin.
  repeat (apply elem_of_cons in Hin as [-> | Hin]); [.. | inversion Hin].
  all: split;
    [ intros Hj; cbv in Hj;
      repeat (apply elem_of_cons in Hj as [-> | Hj]);
      first [ inversion Hj; fail | split; [lia | reflexivity] ]
    | intros [Hj Hadj];
      assert (j ∈ seqZ 0 17) as Hjn by (apply elem_of_seqZ; lia);
      cbv in Hjn;
      repeat (apply elem_of_cons in Hjn as [-> | Hjn]); [.. | inversion Hjn];
      first [ discriminate Hadj | cbv; repeat constructor ] ].
Qed.

Lemma neighborsOf_range (i j : Z) :
  0 ≤ i ≤ 16 → j ∈ neighborsOf i → 0 ≤ j ≤ 16 ∧ j ≠ i.
Proof.
  intros Hi [Hj Hadj]%neighborsOf_adjacent; [| assumption].
  split; [assumption |]. intros ->.
  rewrite isAdjacent_irrefl in Hadj. discriminate.
Qed.

(** What a visit of a target pushes: nothing, or the one move into it,
    and then the target lets the piece in. *)
Lemma visitTarget_elem b c cell p t ms m :
  visitTarget b c cell p t = Some ms → m ∈ ms →
  m = mkMove (Some (index cell)) t false ∧ enterable b c p t.
Proof.
  unfold visitTarget, enterable. intros H Hm.
  destruct (decide (t = CENTER_INDEX ∧ type p ≠ RAT)) as [| Hgate1].
  { injection H as <-. inversion Hm. }
  destruct (at_index b t) as [tgt |] eqn:Et; [| discriminate].
  destruct (decide (t = CENTER_INDEX ∧ is_Some (piece tgt))) as [| Hgate2].
  { injection H as <-. inversion Hm. }
  destruct (isRevealed tgt) eqn:Erev; simpl in H;
    [| injection H as <-; inversion Hm].
  assert (t = CENTER_INDEX → type p = RAT ∧ piece tgt = None) as Hcenter.
  { intros ->. split.
    - destruct (decide (type p = RAT)); [assumption | tauto].
    - destruct (piece tgt) eqn:Ep; [| reflexivity].
      exfalso. apply Hgate2. split; [reflexivity | eauto]. }
  destruct (piece tgt) as [d |] eqn:Ep.
  - destruct (decide (color d ≠ c)) as [Hc |];
      [| injection H as <-; inversion Hm].
    destruct (canAttack p d) eqn:Eatt; injection H as <-; [| inversion Hm].
    apply list_elem_of_singleton in Hm as ->. split; [reflexivity |].
    exists tgt. rewrite Ep. split_and!; try done.
    intros d' [= <-]. done.
  - injection H as <-. apply list_elem_of_singleton in Hm as ->.
    split; [reflexivity |]. exists tgt. rewrite Ep. split_and!; done.
Qed.

Lemma visitTarget_enterable b c cell p t :
  enterable b c p t →
  visitTarget b c cell p t = Some [mkMove (Some (index cell)) t false].
Proof.
  intros (tgt & Et & Erev & Hcenter & Hatt). unfold visitTarget.
  rewrite decide_False by (intros [H1 H2]; apply H2, Hcenter, H1).
  rewrite Et.
  rewrite decide_False.
  2:{ intros [H1 [d Hd]]. destruct (Hcenter H1) as [_ Hnone]. congruence. }
  rewrite Erev. simpl.
  destruct (piece tgt) as [d |]; [| reflexivity].
  destruct (Hatt d eq_refl) as [Hc ->].
  rewrite decide_True by assumption. reflexivity.
Qed.

Lemma visitTarget_is_Some b c cell p t :
  is_Some (at_index b t) → is_Some (visitTarget b c cell p t).
Proof.
  intros [tgt Et]. unfold visitTarget. rewrite Et.
  repeat case_decide; repeat case_match; eauto.
Qed.

(** Every move of the generator is the flip of a hidden cell or the step
    of a revealed piece of the player into a neighbour that lets it in.
    This holds of any array of cells. *)
Lemma getValidMoves_elem b c ms m :
  getValidMoves b c = Some ms → m ∈ ms →
  (∃ cell, cell ∈ b ∧ isRevealed cell = false
           ∧ m = mkMove None (index cell) true)
  ∨ (∃ cell p, cell ∈ b ∧ isRevealed cell = true ∧ piece cell = Some p
               ∧ color p = c ∧ toIndex m ∈ neighborsOf (index cell)
               ∧ m = mkMove (Some (index cell)) (toIndex m) false
               ∧ enterable b c p (toIndex m)).
Proof.
  unfold getValidMoves. intros H Hm.
  apply (forEachPush_Some_elem _ _ _ m) in H. apply H in Hm.
  destruct Hm as (cell & out & Hcell & Hvisit & Hm). unfold visitCell in Hvisit.
  destruct (isRevealed cell) eqn:Erev; simpl in Hvisit.
  - right. destruct (piece cell) as [p |] eqn:Ep;
      [| injection Hvisit as <-; inversion Hm].
    destruct (decide (color p = c)) as [Hc |];
      [| injection Hvisit as <-; inversion Hm].
    apply (forEachPush_Some_elem _ _ _ m) in Hvisit. apply Hvisit in Hm.
    destruct Hm as (t & out' & Ht & Hvt & Hm).
    destruct (visitTarget_elem _ _ _ _ _ _ _ Hvt Hm) as [-> Hent].
    exists cell, p. simpl. split_and!; done.
  - left. injection Hvisit as <-. apply list_elem_of_singleton in Hm as ->.
    exists cell. done.
Qed.

(** On a well-formed board the generator never raises. *)
Lemma getValidMoves_is_Some b c : wf_board b → is_Some (getValidMoves b c).
Proof.
  intros Hwf. unfold getValidMoves. apply forEachPush_is_Some.
  intros cell Hcell. unfold visitCell.
  destruct (isRevealed cell); simpl; [| eauto].
  destruct (piece cell) as [p |]; [| eauto].
  case_decide; [| eauto].
  apply forEachPush_is_Some. intros t Ht.
  apply visitTarget_is_Some.
  pose proof (wf_board_elem _ _ Hwf Hcell) as Hat.
  destruct (wf_board_index _ _ _ Hwf Hat) as [_ Hrange].
  apply neighborsOf_range in Ht as [Ht _]; [| assumption].
  apply at_index_in_range. destruct Hwf as [-> _]. unfold TOTAL_CELLS. lia.
Qed.

(** On a well-formed board the steps among the moves are the legal steps. *)
Lemma getValidMoves_step b c ms i j :
  wf_board b → getValidMoves b c = Some ms →
  mkMove (Some i) j false ∈ ms ↔ legalStep b c i j.
Proof.
  intros Hwf Hms. split.
  - intros Hm. destruct (getValidMoves_elem _ _ _ _ Hms Hm)
      as [(cell & _ & _ & [=]) | (cell & p & Hcell & Hrev & Hp & Hc & Hn & [= ->] & Hent)].
    simpl in *. exists cell, p. split_and!; try done.
    apply wf_board_elem; assumption.
  - intros (src & p & Hsrc & Hrev & Hp & Hc & Hn & Hent).
    destruct (wf_board_index _ _ _ Hwf Hsrc) as [Hidx Hrange].
    apply (forEachPush_Some_elem _ _ _ (mkMove (Some i) j false)) in Hms.
    apply Hms. clear Hms.
    assert (src ∈ b) as Hin.
    { apply at_index_Some in Hsrc as [_ Hsrc]. eapply list_elem_of_lookup_2, Hsrc. }
    destruct (forEachPush_is_Some (visitTarget b c src p) (neighborsOf (index src)))
      as [out Hout].
    { intros t Ht. apply visitTarget_is_Some. rewrite Hidx in Ht.
      apply neighborsOf_range in Ht as [Ht _]; [| assumption].
      apply at_index_in_range. destruct Hwf as [-> _]. unfold TOTAL_CELLS. lia. }
    exists src, out. split_and!; [assumption | |].
    + unfold visitCell. rewrite Hrev, Hp. simpl.
      rewrite decide_True by assumption. exact Hout.
    + apply (forEachPush_Some_elem _ _ _ (mkMove (Some i) j false)) in Hout.
      apply Hout. exists j, [mkMove (Some i) j false]. split_and!.
      * rewrite Hidx. assumption.
      * rewrite <- Hidx at 1. apply visitTarget_enterable. assumption.
      * apply list_elem_of_singleton. reflexivity.
Qed.

(** On a well-formed board a move of the generator is a flip of a hidden
    cell or a legal step. *)
Lemma getValidMoves_inv b c ms m :
  wf_board b → getValidMoves b c = Some ms → m ∈ ms →
  (∃ j cell, m = mkMove None j true ∧ at_index b j = Some cell
             ∧ isRevealed cell = false)
  ∨ (∃ i j, m = mkMove (Some i) j false ∧ legalStep b c i j).
Proof.
  intros Hwf Hms Hm.
  destruct (getValidMoves_elem _ _ _ _ Hms Hm)
    as [(cell & Hcell & Hrev & ->) | (cell & p & Hcell & Hrev & Hp & Hc & Hn & Heq & Hent)].
  - left. exists (index cell), cell. split_and!; try done.
    apply wf_board_elem; assumption.
  - right. exists (index cell), (toIndex m). split; [assumption |].
    exists cell, p. split_and!; try done. apply wf_board_elem; assumption.
Qed.

End MoveGenerator.

(** * State transition *)

Section Transition.

Implicit Types (gs : GameState) (b : list Cell) (m : Move).

Lemma commit_board gs b log next : board (commit gs b log next) = b.
Proof. unfold commit. destruct next as [[? ?] ?]. reflexivity. Qed.

Lemma commit_winner gs b log next :
  winner (commit gs b log next) = Won <$> checkWinner b.
Proof. unfold commit. destruct next as [[? ?] ?]. reflexivity. Qed.

Lemma commit_turn gs b log next :
  turn (commit gs b log next) = if decide (turn gs = RED) then BLUE else RED.
Proof. unfold commit. destruct next as [[? ?] ?]. reflexivity. Qed.

Lemma alter_insert_insert {A} (f : A → A) (l : list A) (i j : nat) (x y : A) :
  i ≠ j → (j < length l)%nat →
  alter f j (<[i := x]> (<[j := y]> l)) = <[i := x]> (<[j := f y]> l).
Proof.
  intros Hne Hj. apply list_eq. intros k.
  destruct (decide (k = j)) as [-> |].
  - rewrite list_lookup_alter_eq.
    rewrite (list_lookup_insert_ne _ i j x), (list_lookup_insert_ne _ i j x) by done.
    rewrite !list_lookup_insert_eq by done. reflexivity.
  - rewrite list_lookup_alter_ne by done.
    destruct (decide (k = i)) as [-> |].
    + destruct (decide (i < length l)%nat).
      * rewrite !list_lookup_insert_eq by (rewrite ?length_insert; done).
        reflexivity.
      * rewrite !lookup_ge_None_2 by (rewrite ?length_insert; lia). reflexivity.
    + rewrite !list_lookup_insert_ne by done. reflexivity.
Qed.

(** A flip of a cell that holds a piece commits, revealing the cell. *)
Lemma handleMove_flip mode ai gs j cell p :
  winner gs = None → at_index (board gs) j = Some cell → piece cell = Some p →
  ∃ log,
    handleMove mode ai gs (mkMove None j true)
    = Committed (commit gs
                   (<[Z.to_nat j := mkCell (index cell) (piece cell) true]>
                      (board gs))
                   log (assignColors mode ai gs p)).
Proof.
  intros Hw Hcell Hp. unfold handleMove. rewrite Hw.
  rewrite decide_False by (intros [? [=]]). simpl.
  rewrite Hcell, Hp. eauto.
Qed.

(** A step between two distinct cells commits with [steppedBoard]. *)
Lemma handleMove_step mode ai gs i j src tgt a :
  winner gs = None → i ≠ j →
  at_index (board gs) i = Some src → piece src = Some a →
  at_index (board gs) j = Some tgt →
  ∃ log,
    handleMove mode ai gs (mkMove (Some i) j false)
    = Committed (commit gs (steppedBoard (board gs) i j src tgt a) log
                   (userColor gs, redPlayer gs, bluePlayer gs)).
Proof.
  intros Hw Hne Hsrc Ha Htgt. unfold handleMove, steppedBoard. rewrite Hw.
  rewrite decide_False by (intros [? [=]]). simpl.
  rewrite Hsrc, Ha, Htgt.
  apply at_index_Some in Hsrc as [Hi Hsrc], Htgt as [Hj Htgt].
  pose proof (lookup_lt_Some _ _ _ Htgt) as Hlt.
  destruct (piece tgt) as [d |]; [| eauto].
  destruct (decide (rank a = rank d)); [| eauto].
  rewrite alter_insert_insert by (done || lia). simpl. eauto.
Qed.

(** A committed state carries the verdict of the win check on its own
    board, and the state before had no winner. *)
Lemma handleMove_Committed mode ai gs m gs' :
  handleMove mode ai gs m = Committed gs' →
  winner gs = None ∧ winner gs' = Won <$> checkWinner (board gs').
Proof.
  unfold handleMove. intros H.
  destruct (decide (is_Some (winner gs))) as [| Hw]; [discriminate |].
  split. { destruct (winner gs); [exfalso; eauto | reflexivity]. }
  repeat case_match; try discriminate;
    injection H as <-;
    first [ rewrite commit_winner, commit_board; reflexivity | reflexivity ].
Qed.

End Transition.

(** * Invariants of the game *)

Section Invariants.

Implicit Types (gs : GameState) (b : list Cell) (m : Move).

Lemma length_filter_insert {A} (P : A → Prop) `{!∀ x, Decision (P x)}
    (l : list A) (i : nat) (x y : A) :
  l !! i = Some y →
  (length (filter P (<[i := x]> l)) + (if decide (P y) then 1 else 0)
   = length (filter P l) + (if decide (P x) then 1 else 0))%nat.
Proof.
  intros Hy. rewrite insert_take_drop by (eapply lookup_lt_Some, Hy).
  rewrite <- (take_drop_middle l i y Hy) at 3.
  rewrite !filter_app, !filter_cons, !length_app.
  destruct (decide (P x)), (decide (P y)); simpl; lia.
Qed.

Lemma wf_board_insert b (k : nat) (old new : Cell) :
  wf_board b → b !! k = Some old → index new = index old →
  wf_board (<[k := new]> b).
Proof.
  intros [Hlen Hidx] Hold Hnew. split; [rewrite length_insert; exact Hlen |].
  intros i c Hc. apply list_lookup_insert_Some in Hc
    as [(-> & -> & _) | (_ & Hc)]; [| eauto].
  rewrite Hnew. eauto.
Qed.

Lemma hiddenHoldPieces_insert b (k : nat) (new : Cell) :
  hiddenHoldPieces b → (isRevealed new = false → is_Some (piece new)) →
  hiddenHoldPieces (<[k := new]> b).
Proof.
  intros Hh Hnew c Hc Hrev.
  apply list_elem_of_lookup in Hc as [i Hc].
  apply list_lookup_insert_Some in Hc as [(-> & -> & _) | (_ & Hc)]; [eauto |].
  eapply Hh; [eapply list_elem_of_lookup_2, Hc | exact Hrev].
Qed.

Lemma centerRevealed_insert b (k : nat) (old new : Cell) :
  centerRevealed b → b !! k = Some old →
  (isRevealed old = true → isRevealed new = true) →
  centerRevealed (<[k := new]> b).
Proof.
  intros (c & [_ Hc]%at_index_Some & Hrev) Hold Hnew. unfold centerRevealed.
  destruct (decide (k = Z.to_nat CENTER_INDEX)) as [-> | Hk].
  - exists new. split.
    + apply at_index_Some. split; [done |].
      apply list_lookup_insert_eq. eapply lookup_lt_Some, Hold.
    + apply Hnew. congruence.
  - exists c. split; [| assumption].
    apply at_index_Some. split; [done |].
    rewrite list_lookup_insert_ne by done. exact Hc.
Qed.

Lemma checkWinner_Some b w : checkWinner b = Some w → unrevealedCount b = 0%nat.
Proof. unfold checkWinner. case_decide; [done | discriminate]. Qed.

Lemma wf_board_check b :
  length b = TOTAL_CELLS → index <$> b = seqZ 0 17 → wf_board b.
Proof.
  intros Hlen Hidx. split; [assumption |]. intros i c Hc.
  assert ((index <$> b) !! i = Some (index c)) as Hi
    by (rewrite list_lookup_fmap, Hc; reflexivity).
  rewrite Hidx in Hi. apply lookup_seqZ in Hi as [-> _]. lia.
Qed.

Lemma shuffled_length deck : shuffled deck → length deck = 16%nat.
Proof. intros H. apply Permutation_length in H. exact H. Qed.

(** The freshly built game satisfies the invariant. *)
Lemma Inv_init deck : shuffled deck → Inv (initGame deck) 0.
Proof.
  intros Hlen%shuffled_length.
  do 16 (destruct deck as [| ? deck]; [discriminate Hlen |]).
  destruct deck; [| discriminate Hlen]. clear Hlen.
  unfold Inv. split_and!.
  - apply wf_board_check; reflexivity.
  - intros c Hc Hrev. cbn in Hc.
    repeat (apply elem_of_cons in Hc as [-> | Hc]);
      [.. | inversion Hc]; solve [ eexists; reflexivity | discriminate Hrev ].
  - eexists. split; reflexivity.
  - reflexivity.
  - intros [? [=]].
Qed.

(** The cells of [steppedBoard] and its count of pieces. *)
Lemma steppedBoard_pieces b (i j : Z) src tgt a :
  Z.to_nat i ≠ Z.to_nat j →
  b !! Z.to_nat i = Some src → piece src = Some a →
  b !! Z.to_nat j = Some tgt →
  (piecesOnBoard (steppedBoard b i j src tgt a)
   + match piece tgt with
     | Some d => if decide (rank a = rank d) then 2 else 1
     | None => 0
     end
   = piecesOnBoard b)%nat.
Proof.
  intros Hne Hsrc Ha Htgt. unfold steppedBoard, piecesOnBoard.
  set (new := mkCell (index tgt) _ (isRevealed tgt)).
  assert (<[Z.to_nat j := new]> b !! Z.to_nat i = Some src) as Hsrc'
    by (rewrite list_lookup_insert_ne by done; exact Hsrc).
  pose proof (length_filter_insert (λ c, is_Some (piece c)) b
                (Z.to_nat j) new tgt Htgt) as Hc1.
  pose proof (length_filter_insert (λ c, is_Some (piece c)) _
                (Z.to_nat i) (mkCell (index src) None (isRevealed src))
                src Hsrc') as Hc2.
  subst new. simpl in Hc1, Hc2. rewrite Ha in Hc2.
  destruct (piece tgt) as [d |]; simpl in *;
    [destruct (decide (rank a = rank d)) |]; simpl in *; lia.
Qed.

Lemma steppedBoard_lookup b (i j k : Z) src tgt a :
  Z.to_nat i ≠ Z.to_nat j →
  b !! Z.to_nat i = Some src → b !! Z.to_nat j = Some tgt →
  steppedBoard b i j src tgt a !! Z.to_nat k =
    if decide (Z.to_nat k = Z.to_nat i)
    then Some (mkCell (index src) None (isRevealed src))
    else if decide (Z.to_nat k = Z.to_nat j)
    then Some (mkCell (index tgt)
                 match piece tgt with
                 | Some d => if decide (rank a = rank d) then None else Some a
                 | None => Some a
                 end (isRevealed tgt))
    else b !! Z.to_nat k.
Proof.
  intros Hne Hsrc Htgt. unfold steppedBoard.
  pose proof (lookup_lt_Some _ _ _ Hsrc). pose proof (lookup_lt_Some _ _ _ Htgt).
  destruct (decide (Z.to_nat k = Z.to_nat i)) as [-> | Hki].
  - apply list_lookup_insert_eq. rewrite length_insert. assumption.
  - rewrite list_lookup_insert_ne by done.
    destruct (decide (Z.to_nat k = Z.to_nat j)) as [-> | Hkj].
    + apply list_lookup_insert_eq. assumption.
    + apply list_lookup_insert_ne. done.
Qed.

(** A legal move in a state without winner commits (it neither returns
    early nor raises), keeps the board well formed, and takes
    [removedBy gs m] pieces off the board. *)
Lemma legal_move_applies mode ai gs n ms m :
  Inv gs n → winner gs = None →
  getValidMoves (board gs) (turn gs) = Some ms → m ∈ ms →
  ∃ b' log next,
    handleMove mode ai gs m = Committed (commit gs b' log next)
    ∧ wf_board b' ∧ hiddenHoldPieces b' ∧ centerRevealed b'
    ∧ (piecesOnBoard b' + removedBy gs m = piecesOnBoard (board gs))%nat.
Proof.
  intros (Hwf & Hhid & Hcen & _ & _) Hw Hms Hm.
  destruct (getValidMoves_inv _ _ _ _ Hwf Hms Hm)
    as [(j & cell & -> & Hcell & Hrev)
       | (i & j & -> & src & a & Hsrc & Hrs & Ha & Hc & Hn & tgt & Htgt & Hrt & Hgate & Hatt)].
  - (* flip *)
    pose proof Hcell as [Hj Hlk]%at_index_Some.
    destruct (Hhid cell) as [p Hp];
      [eapply list_elem_of_lookup_2, Hlk | assumption |].
    destruct (handleMove_flip mode ai gs j cell p Hw Hcell Hp) as [log Hlog].
    eexists _, log, _. split; [exact Hlog |]. split_and!.
    + eapply wf_board_insert; [assumption | exact Hlk | reflexivity].
    + apply hiddenHoldPieces_insert; [assumption | discriminate].
    + eapply centerRevealed_insert; [assumption | exact Hlk | reflexivity].
    + unfold removedBy, piecesOnBoard. simpl.
      pose proof (length_filter_insert (λ c, is_Some (piece c)) (board gs)
                    (Z.to_nat j) (mkCell (index cell) (piece cell) true) cell Hlk)
        as Hcount.
      simpl in Hcount. lia.
  - (* step *)
    destruct (wf_board_index _ _ _ Hwf Hsrc) as [Hisrc Hirange].
    destruct (neighborsOf_range i j Hirange Hn) as [Hjrange Hne].
    destruct (handleMove_step mode ai gs i j src tgt a Hw (not_eq_sym Hne) Hsrc Ha Htgt)
      as [log Hlog].
    eexists _, log, _. split; [exact Hlog |].
    pose proof Hsrc as [_ Hlsrc]%at_index_Some.
    pose proof Htgt as [_ Hltgt]%at_index_Some.
    assert (Z.to_nat i ≠ Z.to_nat j) as Hnat by lia.
    set (new := mkCell (index tgt)
                  match piece tgt with
                  | Some d => if decide (rank a = rank d) then None else Some a
                  | None => Some a
                  end (isRevealed tgt)).
    assert (<[Z.to_nat j := new]> (board gs) !! Z.to_nat i = Some src) as Hlsrc'
      by (rewrite list_lookup_insert_ne by done; exact Hlsrc).
    unfold steppedBoard. fold new. split_and!.
    + eapply wf_board_insert; [| exact Hlsrc' | reflexivity].
      eapply wf_board_insert; [assumption | exact Hltgt | reflexivity].
    + apply hiddenHoldPieces_insert; [| simpl; congruence].
      apply hiddenHoldPieces_insert; [assumption | simpl; congruence].
    + eapply centerRevealed_insert; [| exact Hlsrc' | simpl; congruence].
      eapply centerRevealed_insert; [assumption | exact Hltgt | done].
    + unfold removedBy. simpl. rewrite Hsrc, Htgt, Ha. simpl.
      apply steppedBoard_pieces; assumption.
Qed.

(** The invariant is kept by every legal action. *)
Lemma Inv_step mode ai gs n ms m gs' :
  Inv gs n →
  getValidMoves (board gs) (turn gs) = Some ms → m ∈ ms →
  handleMove mode ai gs m = Committed gs' →
  Inv gs' (n + removedBy gs m).
Proof.
  intros HInv Hms Hm Hgo.
  destruct (handleMove_Committed _ _ _ _ _ Hgo) as [Hw Hwin].
  destruct (legal_move_applies mode ai gs n ms m HInv Hw Hms Hm)
    as (b' & log & next & Heq & Hwf & Hhid & Hcen & Hcount).
  rewrite Hgo in Heq. injection Heq as ->.
  rewrite commit_board in *.
  destruct HInv as (_ & _ & _ & Hn & _).
  unfold Inv. rewrite commit_board. split_and!; try assumption.
  - lia.
  - rewrite Hwin. intros [w Hsome].
    destruct (checkWinner b') as [w' |] eqn:Ew; [| discriminate].
    eapply checkWinner_Some, Ew.
Qed.

Lemma Reach_Inv gs n : Reach gs n → Inv gs n.
Proof.
  induction 1 as [deck Hdeck | gs n mode ai m ms gs' _ IH Hms Hm Hgo].
  - apply Inv_init. assumption.
  - eapply Inv_step; eassumption.
Qed.

(** In a reachable state the board is well formed, the generator does not
    raise, and every move it offers commits while there is no winner. *)
Lemma reachable_wf_board gs :
  reachable gs →
  wf_board (board gs) ∧ hiddenHoldPieces (board gs)
  ∧ centerRevealed (board gs).
Proof. intros [n (Hwf & Hhid & Hcen & _)%Reach_Inv]. split_and!; assumption. Qed.

Lemma reachable_moves gs :
  reachable gs → is_Some (getValidMoves (board gs) (turn gs)).
Proof. intros [Hwf _]%reachable_wf_board. apply getValidMoves_is_Some, Hwf. Qed.

Lemma reachable_progress mode ai gs ms m :
  reachable gs → winner gs = None →
  getValidMoves (board gs) (turn gs) = Some ms → m ∈ ms →
  ∃ gs', handleMove mode ai gs m = Committed gs' ∧ reachable gs'.
Proof.
  intros [n Hreach] Hw Hms Hm.
  destruct (legal_move_applies mode ai gs n ms m (Reach_Inv _ _ Hreach) Hw Hms Hm)
    as (b' & log & next & Hgo & _).
  eexists. split; [exact Hgo |].
  exists (n + removedBy gs m)%nat. eapply Reach_step; eassumption.
Qed.

End Invariants.

(** * The properties of the specification *)

(** ** Topology *)

(** C10. [isAdjacent] yields a boolean for every pair of indices of the
    board, is symmetric, relates no index to itself, relates the Center
    (16) exactly to 5, 6, 9 and 10, and relates two indices of the grid
    (0 to 15) exactly when their Manhattan distance on the 4x4 grid is 1. *)
Theorem isAdjacent_topology (a b : Z) :
  0 ≤ a ≤ 16 → 0 ≤ b ≤ 16 →
  (isAdjacent a b = true ∨ isAdjacent a b = false)
  ∧ isAdjacent a b = isAdjacent b a
  ∧ isAdjacent a a = false
  ∧ (isAdjacent CENTER_INDEX b = true ↔ b ∈ [5; 6; 9; 10])
  ∧ (isAdjacent a CENTER_INDEX = true ↔ a ∈ [5; 6; 9; 10])
  ∧ (a ≤ 15 → b ≤ 15 → isAdjacent a b = true ↔ manhattan a b = 1).
Proof.
  intros Ha Hb. split_and!.
  - destruct (isAdjacent a b); [left | right]; reflexivity.
  - apply isAdjacent_sym.
  - apply isAdjacent_irrefl.
  - apply isAdjacent_center_l.
  - apply isAdjacent_center_r.
  - intros Ha' Hb'. apply isAdjacent_grid; lia.
Qed.

(** No wraparound: the end of a row is not adjacent to the start of the
    next one, while it is to the cell below. *)
Lemma isAdjacent_topology_witness :
  isAdjacent 3 4 = isAdjacent 4 3 ∧ (isAdjacent 3 4 = true ↔ manhattan 3 4 = 1).
Proof.
  destruct (isAdjacent_topology 3 4) as (_ & Hsym & _ & _ & _ & Hgrid);
    [lia | lia |].
  split; [exact Hsym | apply Hgrid; lia].
Defined.

(** ** Move generator *)

(** C4. Whatever the board and the color, a move of [getValidMoves] into
    the Center (16) is made by a Rat, and there is none while the Center
    holds a piece; a revealed Rat of the player next to the empty Center
    does get the move into it. *)
Theorem center_entry (b : list Cell) (c : PlayerColor) (ms : list Move) :
  getValidMoves b c = Some ms →
  (∀ m, m ∈ ms → isFlip m = false → toIndex m = CENTER_INDEX →
     ∃ cell p, cell ∈ b ∧ fromIndex m = Some (index cell)
               ∧ piece cell = Some p ∧ type p = RAT)
  ∧ (∀ tgt, at_index b CENTER_INDEX = Some tgt → is_Some (piece tgt) →
       ∀ m, m ∈ ms → isFlip m = false → toIndex m ≠ CENTER_INDEX)
  ∧ (wf_board b →
     ∀ i src p tgt,
       isAdjacent i CENTER_INDEX = true →
       at_index b i = Some src → isRevealed src = true →
       piece src = Some p → type p = RAT → color p = c →
       at_index b CENTER_INDEX = Some tgt → isRevealed tgt = true →
       piece tgt = None →
       mkMove (Some i) CENTER_INDEX false ∈ ms).
Proof.
  intros Hms. split_and!.
  - intros m Hm Hflip Hto.
    destruct (getValidMoves_elem _ _ _ _ Hms Hm)
      as [(cell & _ & _ & ->) | (cell & p & Hcell & _ & Hp & _ & _ & -> & Hent)];
      [discriminate Hflip |].
    simpl in *. destruct Hent as (tgt & _ & _ & Hgate & _).
    exists cell, p. split_and!; try done. apply Hgate, Hto.
  - intros tgt Htgt [d Hd] m Hm Hflip Hto.
    destruct (getValidMoves_elem _ _ _ _ Hms Hm)
      as [(cell & _ & _ & ->) | (cell & p & _ & _ & _ & _ & _ & _ & Hent)];
      [discriminate Hflip |].
    destruct Hent as (tgt' & Htgt' & _ & Hgate & _).
    rewrite Hto, Htgt in Htgt'. injection Htgt' as <-.
    destruct (Hgate Hto) as [_ Hnone]. congruence.
  - intros Hwf i src p tgt Hadj Hsrc Hrs Hp Hrat Hc Htgt Hrt Hempty.
    apply (getValidMoves_step b c ms i CENTER_INDEX Hwf Hms).
    destruct (wf_board_index _ _ _ Hwf Hsrc) as [_ Hi].
    exists src, p. split_and!; try done.
    + apply neighborsOf_adjacent; [assumption | split; [done | assumption]].
    + exists tgt. split_and!; try done. intros d Hd. congruence.
Qed.

(** The Red Rat of cell 5 may enter the empty Center. *)
Lemma center_entry_witness :
  mkMove (Some 5) CENTER_INDEX false
  ∈ [mkMove (Some 5) 4 false; mkMove (Some 5) 6 false;
     mkMove (Some 5) 1 false; mkMove (Some 5) 9 false;
     mkMove (Some 5) 16 false].
Proof.
  destruct (center_entry ratByCenter RED
              [mkMove (Some 5) 4 false; mkMove (Some 5) 6 false;
               mkMove (Some 5) 1 false; mkMove (Some 5) 9 false;
               mkMove (Some 5) 16 false])
    as (_ & _ & Hrat).
  - vm_compute. reflexivity.
  - apply (Hrat ltac:(apply wf_board_check; reflexivity) 5
             (mkCell 5 (Some redRat) true) redRat (mkCell 16 None true));
      reflexivity.
Defined.

(** C5. For an attacker of the player and a defender of the opponent on
    revealed neighbouring cells, the defender not on the Center, the
    attack is among the legal moves if and only if the attacker's rank is
    at least the defender's, except that a Rat always takes an Elephant
    and an Elephant never takes a Rat. *)
Theorem attack_rule (b : list Cell) (c : PlayerColor) (ms : list Move)
    (i j : Z) (src tgt : Cell) (attacker defender : Piece) :
  wf_board b → getValidMoves b c = Some ms →
  at_index b i = Some src → isRevealed src = true →
  piece src = Some attacker → color attacker = c →
  isAdjacent i j = true → j ≠ CENTER_INDEX →
  at_index b j = Some tgt → isRevealed tgt = true →
  piece tgt = Some defender → color defender ≠ c →
  mkMove (Some i) j false ∈ ms ↔ canCapture attacker defender.
Proof.
  intros Hwf Hms Hsrc Hrs Ha Hca Hadj Hj Htgt Hrt Hd Hcd.
  rewrite (getValidMoves_step b c ms i j Hwf Hms).
  assert (canAttack attacker defender = true ↔ canCapture attacker defender)
    as <-.
  { unfold canAttack, canCapture. repeat case_decide; intuition (lia || congruence). }
  destruct (wf_board_index _ _ _ Hwf Hsrc) as [_ Hi].
  destruct (wf_board_index _ _ _ Hwf Htgt) as [_ Hjr].
  split.
  - intros (src' & p & Hsrc' & _ & Hp & _ & _ & tgt' & Htgt' & _ & _ & Hatt).
    rewrite Hsrc in Hsrc'. injection Hsrc' as <-.
    rewrite Htgt in Htgt'. injection Htgt' as <-.
    rewrite Ha in Hp. injection Hp as <-.
    apply (Hatt defender Hd).
  - intros Hcan. exists src, attacker. split_and!; try done.
    + apply neighborsOf_adjacent; [assumption | split; assumption].
    + exists tgt. split_and!; try done.
      intros d Hd'. rewrite Hd in Hd'. injection Hd' as <-. done.
Qed.

(** The Blue Rat may take the Red Elephant beside it, not the reverse. *)
Lemma attack_rule_witness :
  (mkMove (Some 1) 0 false ∈ [mkMove (Some 1) 0 false; mkMove (Some 1) 2 false;
                              mkMove (Some 1) 5 false]
   ↔ canCapture blueRat redElephant)
  ∧ (mkMove (Some 0) 1 false ∈ [mkMove (Some 0) 4 false]
     ↔ canCapture redElephant blueRat).
Proof.
  split.
  - apply (attack_rule elephantAndRat BLUE _ 1 0
             (mkCell 1 (Some blueRat) true) (mkCell 0 (Some redElephant) true));
      try reflexivity; try discriminate.
    apply wf_board_check; reflexivity.
  - apply (attack_rule elephantAndRat RED _ 0 1
             (mkCell 0 (Some redElephant) true) (mkCell 1 (Some blueRat) true));
      try reflexivity; try discriminate.
    apply wf_board_check; reflexivity.
Defined.

(** ** Combat outcome *)

(** C6. Applying a legal capture commits: when attacker and defender have
    the same rank both leave the board and source and destination end
    without a piece and revealed; otherwise the defender alone leaves, the
    attacker stands on the destination and the source is empty. The other
    cells are untouched. *)
Theorem capture_outcome (mode : GameMode) (ai : bool) (gs : GameState)
    (ms : list Move) (i j : Z) (src tgt : Cell) (attacker defender : Piece) :
  wf_board (board gs) → winner gs = None →
  getValidMoves (board gs) (turn gs) = Some ms →
  mkMove (Some i) j false ∈ ms →
  at_index (board gs) i = Some src → piece src = Some attacker →
  at_index (board gs) j = Some tgt → piece tgt = Some defender →
  ∃ gs',
    handleMove mode ai gs (mkMove (Some i) j false) = Committed gs'
    ∧ at_index (board gs') i = Some (mkCell i None true)
    ∧ at_index (board gs') j =
        Some (mkCell j (if decide (rank attacker = rank defender)
                        then None else Some attacker) true)
    ∧ (∀ k, k ≠ i → k ≠ j → at_index (board gs') k = at_index (board gs) k)
    ∧ (piecesOnBoard (board gs')
       + (if decide (rank attacker = rank defender) then 2 else 1)
       = piecesOnBoard (board gs))%nat.
Proof.
  intros Hwf Hw Hms Hm Hsrc Ha Htgt Hd.
  apply (getValidMoves_step _ _ _ _ _ Hwf Hms) in Hm
    as (src' & p & Hsrc' & Hrs & _ & _ & Hn & tgt' & Htgt' & Hrt & _).
  rewrite Hsrc in Hsrc'. injection Hsrc' as <-.
  rewrite Htgt in Htgt'. injection Htgt' as <-.
  destruct (wf_board_index _ _ _ Hwf Hsrc) as [Hisrc Hi].
  destruct (wf_board_index _ _ _ Hwf Htgt) as [Hitgt Hj].
  destruct (neighborsOf_range i j Hi Hn) as [_ Hne].
  destruct (handleMove_step mode ai gs i j src tgt attacker Hw
              (not_eq_sym Hne) Hsrc Ha Htgt) as [log Hlog].
  eexists. split; [exact Hlog |]. rewrite commit_board.
  pose proof Hsrc as [_ Hlsrc]%at_index_Some.
  pose proof Htgt as [_ Hltgt]%at_index_Some.
  assert (Z.to_nat i ≠ Z.to_nat j) as Hnat by lia.
  pose proof (steppedBoard_pieces _ i j src tgt attacker Hnat Hlsrc Ha Hltgt)
    as Hcount.
  rewrite Hd in Hcount.
  split_and!; [| | | exact Hcount].
  - apply at_index_Some. split; [lia |].
    rewrite (steppedBoard_lookup _ i j i src tgt attacker Hnat Hlsrc Hltgt).
    rewrite decide_True by reflexivity. rewrite Hisrc, Hrs. reflexivity.
  - apply at_index_Some. split; [lia |].
    rewrite (steppedBoard_lookup _ i j j src tgt attacker Hnat Hlsrc Hltgt).
    rewrite decide_False by done. rewrite decide_True by reflexivity.
    rewrite Hitgt, Hrt, Hd. reflexivity.
  - intros k Hki Hkj. unfold at_index. destruct (decide (0 ≤ k)); [| reflexivity].
    rewrite (steppedBoard_lookup _ i j k src tgt attacker Hnat Hlsrc Hltgt).
    rewrite !decide_False by lia. reflexivity.
Qed.

(** The two Cats take each other. *)
Lemma capture_outcome_witness :
  ∃ gs',
    handleMove PVP false (inPlay lastTwoCats RED) (mkMove (Some 0) 1 false)
    = Committed gs'
    ∧ at_index (board gs') 0 = Some (mkCell 0 None true)
    ∧ at_index (board gs') 1 = Some (mkCell 1 None true).
Proof.
  destruct (capture_outcome PVP false (inPlay lastTwoCats RED)
              [mkMove (Some 0) 1 false; mkMove (Some 0) 4 false] 0 1
              (mkCell 0 (Some redCat) true) (mkCell 1 (Some blueCat) true)
              redCat blueCat)
    as (gs' & Hgo & Hsrc & Htgt & _).
  - apply wf_board_check; reflexivity.
  - reflexivity.
  - vm_compute. reflexivity.
  - left.
  - reflexivity.
  - reflexivity.
  - reflexivity.
  - reflexivity.
  - exists gs'. split_and!; assumption.
Defined.

(** ** Win evaluation *)

(** X23. The verdict of the win check once nothing is hidden: a color that
    has lost all its pieces loses to the one that still has some, and
    while both have pieces there is no winner. *)
Lemma winner_one_color_left mode ai gs m gs' :
  handleMove mode ai gs m = Committed gs' →
  unrevealedCount (board gs') = 0%nat →
  (colorCount RED (board gs') = 0%nat → (0 < colorCount BLUE (board gs'))%nat →
     winner gs' = Some (Won BLUE))
  ∧ (colorCount BLUE (board gs') = 0%nat → (0 < colorCount RED (board gs'))%nat →
       winner gs' = Some (Won RED))
  ∧ ((0 < colorCount RED (board gs'))%nat → (0 < colorCount BLUE (board gs'))%nat →
       winner gs' = None).
Proof.
  intros [_ ->]%handleMove_Committed Hrev. unfold checkWinner.
  rewrite decide_True by assumption.
  split_and!; intros; repeat case_decide; simpl; (reflexivity || lia).
Qed.

(** No action ever records a draw. *)
Lemma handleMove_never_draw mode ai gs m gs' :
  handleMove mode ai gs m = Committed gs' → winner gs' ≠ Some DRAW.
Proof.
  intros [_ ->]%handleMove_Committed. destruct (checkWinner _); discriminate.
Qed.

(** C1. When the last two pieces, of equal rank, take each other and
    nothing is hidden, both colors have no piece left, and the winner
    field of the committed state stays empty: no draw is recorded, and
    neither color has a move left. *)
Theorem last_pieces_eliminated_no_draw :
  ∃ ms gs',
    getValidMoves lastTwoCats RED = Some ms
    ∧ mkMove (Some 0) 1 false ∈ ms
    ∧ handleMove PVP false (inPlay lastTwoCats RED) (mkMove (Some 0) 1 false)
      = Committed gs'
    ∧ unrevealedCount (board gs') = 0%nat
    ∧ colorCount RED (board gs') = 0%nat
    ∧ colorCount BLUE (board gs') = 0%nat
    ∧ winner gs' = None
    ∧ getValidMoves (board gs') RED = Some []
    ∧ getValidMoves (board gs') BLUE = Some [].
Proof.
  eexists _, _. split_and!.
  - vm_compute. reflexivity.
  - left.
  - vm_compute. reflexivity.
  - reflexivity.
  - reflexivity.
  - reflexivity.
  - reflexivity.
  - vm_compute. reflexivity.
  - vm_compute. reflexivity.
Qed.

(** C3. In a reachable state no winner is set while a cell is hidden,
    however the pieces are distributed, and an action sets a winner only
    when it leaves no hidden cell. *)
Theorem no_winner_while_hidden (gs : GameState) :
  reachable gs →
  ((0 < unrevealedCount (board gs))%nat → winner gs = None)
  ∧ (∀ mode ai m gs',
       handleMove mode ai gs m = Committed gs' →
       is_Some (winner gs') → unrevealedCount (board gs') = 0%nat).
Proof.
  intros [n (_ & _ & _ & _ & Hwin)%Reach_Inv]. split.
  - intros Hpos. destruct (winner gs) eqn:Ew; [| reflexivity].
    assert (unrevealedCount (board gs) = 0%nat) by (apply Hwin; eauto). lia.
  - intros mode ai m gs' [_ Heq]%handleMove_Committed [w Hw].
    rewrite Heq in Hw. destruct (checkWinner (board gs')) eqn:Ec; [| discriminate].
    eapply checkWinner_Some, Ec.
Qed.

Lemma no_winner_while_hidden_witness :
  winner (play [mkMove None 3 true] (initGame INITIAL_DECK)) = None.
Proof.
  apply (no_winner_while_hidden (play [mkMove None 3 true] (initGame INITIAL_DECK))).
  - exists (0 + removedBy (initGame INITIAL_DECK) (mkMove None 3 true))%nat.
    eapply (Reach_step _ _ PVP false).
    + apply Reach_init. unfold shuffled. reflexivity.
    + vm_compute. reflexivity.
    + do 3 right. left.
    + vm_compute. reflexivity.
  - vm_compute. lia.
Defined.

(** ** Conservation of the pieces *)

(** C7. In every state reached from a freshly built board by legal
    actions, the pieces on the board and the pieces removed by captures
    and mutual eliminations are 16 together. *)
Theorem pieces_conserved (gs : GameState) (n : nat) :
  Reach gs n → (piecesOnBoard (board gs) + n = 16)%nat.
Proof.
  intros Hreach.
  assert (Inv gs n) as (_ & _ & _ & Hn & _); [| exact Hn].
  induction Hreach as [deck Hdeck | gs n mode ai m ms gs' _ IH Hms Hm Hgo].
  - apply Inv_init. exact Hdeck.
  - exact (Inv_step mode ai gs n ms m gs' IH Hms Hm Hgo).
Qed.

(** After the trade of the Elephants both have left the board. *)
Lemma pieces_conserved_witness :
  (piecesOnBoard (board (play elephantsTrade (initGame INITIAL_DECK))) + 2
   = 16)%nat.
Proof.
  apply pieces_conserved.
  pose (g0 := initGame INITIAL_DECK).
  pose (g1 := play [mkMove None 0 true] g0).
  pose (g2 := play [mkMove None 0 true; mkMove None 1 true] g0).
  change (Reach (play elephantsTrade g0)
            (0 + removedBy g0 (mkMove None 0 true)
             + removedBy g1 (mkMove None 1 true)
             + removedBy g2 (mkMove (Some 0) 1 false))).
  eapply (Reach_step g2 _ PVP false);
    [eapply (Reach_step g1 _ PVP false);
     [eapply (Reach_step g0 _ PVP false);
      [apply Reach_init; unfold shuffled; reflexivity | ..] | ..] | ..].
  all: try (vm_compute; reflexivity).
  all: solve [repeat first [left | right]].
Defined.

(** ** Rejection of illegal moves *)

(** C2, as stated, fails: [handleMove] checks no legality. On the freshly
    built board the hidden piece of cell 0 is moved onto the hidden piece
    of cell 15, far away, although the generator offers flips only. *)
Lemma handleMove_applies_illegal_move :
  let gs := initGame INITIAL_DECK in
  let m := mkMove (Some 0) 15 false in
  winner gs = None ∧ isFlip m = false
  ∧ (∃ ms, getValidMoves (board gs) (turn gs) = Some ms
           ∧ ∀ m', m' ∈ ms →
               ¬ (fromIndex m' = fromIndex m ∧ toIndex m' = toIndex m))
  ∧ ∃ gs', handleMove PVP false gs m = Committed gs'
           ∧ board gs' ≠ board gs.
Proof.
  split_and!; [reflexivity | reflexivity | |].
  - eexists. split; [vm_compute; reflexivity |].
    intros m' Hm' [Hfrom _].
    repeat (apply elem_of_cons in Hm' as [-> | Hm']); try discriminate Hfrom.
    inversion Hm'.
  - eexists. split; [vm_compute; reflexivity |].
    intros Heq. apply (f_equal (λ b, piece <$> b !! 0%nat)) in Heq.
    discriminate Heq.
Qed.

Lemma find_none_of_all (sel idx : Z) (ms : list Move) :
  (∀ m, m ∈ ms → ¬ (fromIndex m = Some sel ∧ toIndex m = idx)) →
  List.find (λ m, bool_decide (fromIndex m = Some sel ∧ toIndex m = idx)) ms
  = None.
Proof.
  intros Hall.
  destruct (List.find _ ms) as [m |] eqn:Efind; [| reflexivity].
  apply List.find_some in Efind as [Hin Hm].
  apply bool_decide_eq_true in Hm. apply list_elem_of_In in Hin.
  destruct (Hall m Hin Hm).
Qed.

(** C2, amended. With a source selected, a click on a cell of a
    well-formed board that asks for a pair (source, destination) outside
    [getValidMoves board turn] returns without applying anything: the game
    state is unchanged and no error is raised; the selection alone moves,
    to the clicked cell when it shows a piece of the player to move and
    to nothing otherwise. *)
Theorem click_rejects_illegal_pair (app : App) (sel idx : Z)
    (ms : list Move) (cell : Cell) :
  selectedIndex app = Some sel →
  at_index (board (gameState app)) idx = Some cell →
  getValidMoves (board (gameState app)) (turn (gameState app)) = Some ms →
  (∀ m, m ∈ ms → ¬ (fromIndex m = Some sel ∧ toIndex m = idx)) →
  ∃ app',
    handleCellClick app idx = Returned app'
    ∧ gameState app' = gameState app
    ∧ gameMode app' = gameMode app
    ∧ isProcessing app' = isProcessing app
    ∧ aiThinking app' = aiThinking app
    ∧ (selectedIndex app' = selectedIndex app
       ∨ selectedIndex app' = None
       ∨ selectedIndex app' = Some idx
         ∧ isRevealed cell = true
         ∧ ∃ p, piece cell = Some p ∧ color p = turn (gameState app)).
Proof.
  intros Hsel Hcell Hms Hall. unfold handleCellClick.
  destruct (_ || _ || _); [exists app; split_and!; auto |].
  destruct (_ && _); [exists app; split_and!; auto |].
  rewrite Hcell, Hsel.
  destruct (isRevealed cell) eqn:Hrev; simpl;
    [| eexists; split_and!; [reflexivity | ..]; simpl; auto].
  destruct (decide (idx = sel));
    [eexists; split_and!; [reflexivity | ..]; simpl; auto |].
  rewrite Hms, (find_none_of_all sel idx ms Hall).
  destruct (piece cell) as [p |] eqn:Hp;
    [destruct (bool_decide (color p = turn (gameState app))) eqn:Hown |];
    eexists; (split_and!; [reflexivity | ..]); simpl; auto.
  right. right. split_and!; auto.
  exists p. split; [reflexivity |]. apply bool_decide_eq_true in Hown. exact Hown.
Qed.

(** The Red Elephant of cell 0 is selected and cell 1, where the Blue Rat
    stands, is clicked: nothing is applied. *)
Lemma click_rejects_illegal_pair_witness :
  ∃ app',
    handleCellClick
      (mkApp PVP (inPlay elephantAndRat RED) (Some 0) false false) 1
    = Returned app'
    ∧ gameState app' = inPlay elephantAndRat RED.
Proof.
  destruct (click_rejects_illegal_pair
              (mkApp PVP (inPlay elephantAndRat RED) (Some 0) false false)
              0 1 [mkMove (Some 0) 4 false] (mkCell 1 (Some blueRat) true))
    as (app' & Hret & Hgs & _).
  - reflexivity.
  - reflexivity.
  - vm_compute. reflexivity.
  - intros m Hm [_ Hto]. apply list_elem_of_singleton in Hm as ->.
    discriminate Hto.
  - exists app'. split; [exact Hret | exact Hgs].
Defined.

(** ** The freshly built board *)

(** Each (color, kind) pair occurs once in the deck, with the rank of its
    kind. *)
Lemma INITIAL_DECK_pairs (c : PlayerColor) (t : AnimalType) :
  length (filter (λ p, (color p, type p) = (c, t)) INITIAL_DECK) = 1%nat.
Proof. destruct c, t; vm_compute; reflexivity. Qed.

Lemma INITIAL_DECK_ranks (p : Piece) :
  p ∈ INITIAL_DECK → rank p = ANIMAL_RANKS (type p).
Proof.
  intros Hp. vm_compute in Hp.
  repeat (apply elem_of_cons in Hp as [-> | Hp]); try reflexivity.
  inversion Hp.
Qed.

Lemma pairs_of_cells (c : PlayerColor) (t : AnimalType)
    (cells : list Cell) (deck : list Piece) :
  piece <$> cells = Some <$> deck →
  length (filter (λ cell, (λ p, (color p, type p)) <$> piece cell
                          = Some (c, t)) cells)
  = length (filter (λ p, (color p, type p) = (c, t)) deck).
Proof.
  revert deck. induction cells as [| cell cells IH]; intros [| p deck] Heq;
    try discriminate Heq; [reflexivity |].
  injection Heq as Hp Heq. rewrite !filter_cons.
  specialize (IH deck Heq).
  destruct (decide (_ <$> piece cell = Some (c, t))) as [Hl | Hl],
           (decide ((color p, type p) = (c, t))) as [Hr | Hr];
    rewrite Hp in Hl; simpl in *; congruence.
Qed.

(** The deal follows the order of the deck: cell [i] receives [deck[i]]. *)
Lemma initGame_deals_in_order (deck : list Piece) (i : Z) :
  0 ≤ i ≤ 15 →
  at_index (board (initGame deck)) i
  = Some (mkCell i (deck !! Z.to_nat i) false).
Proof.
  intros Hi.
  assert (i ∈ seqZ 0 16) as Hin by (apply elem_of_seqZ; lia).
  cbv in Hin.
  repeat (apply elem_of_cons in Hin as [-> | Hin]); [.. | inversion Hin];
    reflexivity.
Qed.

(** C9. The board built from a shuffled deck has 17 cells; each of the
    cells 0 to 15 is hidden and holds a piece whose rank is the rank of
    its kind; every (color, kind) pair is held by exactly one of them;
    cell 16 is revealed and empty. *)
Theorem fresh_board (deck : list Piece) :
  shuffled deck →
  let b := board (initGame deck) in
  length b = 17%nat
  ∧ (∀ i, 0 ≤ i ≤ 15 →
       ∃ p, at_index b i = Some (mkCell i (Some p) false)
            ∧ rank p = ANIMAL_RANKS (type p))
  ∧ (∀ c t,
       length (filter (λ cell, (λ p, (color p, type p)) <$> piece cell
                               = Some (c, t)) (take 16 b)) = 1%nat)
  ∧ at_index b 16 = Some (mkCell 16 None true).
Proof.
  intros Hperm. pose proof (shuffled_length deck Hperm) as Hlen.
  unfold shuffled in Hperm.
  assert (∀ p, p ∈ deck → rank p = ANIMAL_RANKS (type p)) as Hrank.
  { intros p Hp. apply INITIAL_DECK_ranks. rewrite <- Hperm. exact Hp. }
  assert (∀ c t,
            length (filter (λ p, (color p, type p) = (c, t)) deck) = 1%nat)
    as Hpairs.
  { intros c t. rewrite <- (INITIAL_DECK_pairs c t).
    apply Permutation_length. rewrite Hperm. reflexivity. }
  do 16 (destruct deck as [| ? deck]; [discriminate Hlen |]).
  destruct deck; [| discriminate Hlen]. clear Hlen Hperm.
  cbv zeta. split_and!.
  - reflexivity.
  - intros i Hi.
    assert (i ∈ seqZ 0 16) as Hin by (apply elem_of_seqZ; lia).
    cbv in Hin.
    repeat (apply elem_of_cons in Hin as [-> | Hin]); [.. | inversion Hin].
    all: eexists; split; [reflexivity |];
      apply Hrank; solve [repeat first [left | right]].
  - intros c t. etransitivity; [| exact (Hpairs c t)].
    apply pairs_of_cells. reflexivity.
  - reflexivity.
Qed.

(** The deck dealt in the reverse of its order of construction. *)
Lemma fresh_board_witness :
  at_index (board (initGame (reverse INITIAL_DECK))) 0
  = Some (mkCell 0 (Some blueRat) false)
  ∧ at_index (board (initGame (reverse INITIAL_DECK))) 16
    = Some (mkCell 16 None true).
Proof.
  destruct (fresh_board (reverse INITIAL_DECK)) as (_ & _ & _ & Hcenter).
  - unfold shuffled. apply reverse_Permutation.
  - split; [vm_compute; reflexivity | exact Hcenter].
Defined.

(** * Further properties of the code *)

(** ** What any call of [handleMove] keeps *)

Section AnyMove.

Implicit Types (gs : GameState) (b : list Cell) (m : Move).

Lemma cellKept_refl (c : Cell) : cellKept c c.
Proof. split; auto. Qed.

Lemma Forall2_cellKept_refl b : Forall2 cellKept b b.
Proof. apply Forall_Forall2_diag, Forall_forall. intros. apply cellKept_refl. Qed.

Lemma Forall2_cellKept_insert b b' (i : nat) (x y : Cell) :
  Forall2 cellKept b b' → b !! i = Some x → cellKept x y →
  Forall2 cellKept b (<[i := y]> b').
Proof.
  intros Hall Hx Hxy. rewrite <- (list_insert_id b i x Hx).
  apply Forall2_insert; assumption.
Qed.

(** X1. Whatever the move, legal or not, and however the call ends, the
    board keeps its cells: none is added, dropped or renumbered, and no
    revealed cell is hidden again. *)
Theorem handleMove_keeps_cells (mode : GameMode) (ai : bool) (gs : GameState)
    (m : Move) :
  Forall2 cellKept (board gs) (board (stateOf (handleMove mode ai gs m))).
Proof.
  unfold handleMove.
  destruct (decide (is_Some (winner gs))); [apply Forall2_cellKept_refl |].
  cbv zeta. destruct (isFlip m).
  - destruct (at_index (board gs) (toIndex m)) as [t |] eqn:Ht;
      [| apply Forall2_cellKept_refl].
    apply at_index_Some in Ht as [_ Ht].
    assert (Forall2 cellKept (board gs)
              (<[Z.to_nat (toIndex m) := mkCell (index t) (piece t) true]>
                 (board gs))) as Hflip.
    { eapply Forall2_cellKept_insert;
        [apply Forall2_cellKept_refl | exact Ht | split; auto]. }
    destruct (piece t); simpl; [rewrite commit_board |]; exact Hflip.
  - destruct (fromIndex m) as [i |]; [| apply Forall2_cellKept_refl].
    destruct (at_index (board gs) i) as [c |] eqn:Hc;
      [| apply Forall2_cellKept_refl].
    destruct (piece c) as [attacker |]; [| apply Forall2_cellKept_refl].
    destruct (at_index (board gs) (toIndex m)) as [t |] eqn:Ht;
      [| apply Forall2_cellKept_refl].
    apply at_index_Some in Hc as [_ Hc]. apply at_index_Some in Ht as [_ Ht].
    assert (Forall2 cellKept (board gs)
              (<[Z.to_nat i := mkCell (index c) None (isRevealed c)]>
                 (<[Z.to_nat (toIndex m) :=
                      mkCell (index t) (Some attacker) (isRevealed t)]>
                    (board gs)))) as Hstep.
    { eapply Forall2_cellKept_insert; [| exact Hc | split; auto].
      eapply Forall2_cellKept_insert;
        [apply Forall2_cellKept_refl | exact Ht | split; auto]. }
    destruct (piece t) as [d |]; simpl; [| exact Hstep].
    destruct (decide (rank attacker = rank d)); simpl; [| exact Hstep].
    apply Forall2_alter_r; [exact Hstep |].
    intros x y _ _ [Hidx Hrev]. split; simpl; assumption.
Qed.



Lemma elem_of_piecesOf b p :
  p ∈ piecesOf b ↔ ∃ c, c ∈ b ∧ piece c = Some p.
Proof. apply list_elem_of_omap. Qed.


End AnyMove.


(** ** A call that does not commit, and one that does *)

(** X3. A call of [handleMove] that returns early changes nothing. One
    that raises leaves turn, winner, binding and history alone, and the
    board too, unless it was the flip of a cell without a piece: that cell
    is left revealed. *)
Theorem handleMove_not_committed (mode : GameMode) (ai : bool)
    (gs gs' : GameState) (m : Move) :
  (handleMove mode ai gs m = Returned gs' → gs' = gs)
  ∧ (handleMove mode ai gs m = Threw gs' →
     turn gs' = turn gs ∧ winner gs' = winner gs
     ∧ redPlayer gs' = redPlayer gs ∧ bluePlayer gs' = bluePlayer gs
     ∧ userColor gs' = userColor gs ∧ history gs' = history gs
     ∧ (board gs' = board gs
        ∨ ∃ t, isFlip m = true
               ∧ at_index (board gs) (toIndex m) = Some t ∧ piece t = None
               ∧ board gs' = <[Z.to_nat (toIndex m) :=
                                 mkCell (index t) None true]> (board gs))).
Proof.
  unfold handleMove. split; intros H.
  - repeat case_match; try discriminate H; injection H as <-; reflexivity.
  - destruct (decide (is_Some (winner gs))); [discriminate H |].
    cbv zeta in H. destruct (isFlip m) eqn:Hflip.
    + destruct (at_index (board gs) (toIndex m)) as [t |] eqn:Ht.
      * destruct (piece t) eqn:Hp; [discriminate H |].
        injection H as <-. simpl. split_and!; try reflexivity.
        right. exists t. rewrite ?Hp. split_and!; auto.
      * injection H as <-. split_and!; auto.
    + repeat case_match; try discriminate H; injection H as <-;
        split_and!; auto.
Qed.

(** A move without a source returns early; a flip of the empty Center
    raises. *)
Lemma handleMove_not_committed_witness :
  stateOf (handleMove PVP false (inPlay ratByCenter RED) (mkMove None 4 false))
  = inPlay ratByCenter RED
  ∧ turn (stateOf (handleMove PVP false (inPlay ratByCenter RED)
                     (mkMove None 16 true))) = RED.
Proof.
  split.
  - apply (handleMove_not_committed PVP false (inPlay ratByCenter RED) _
             (mkMove None 4 false)).
    reflexivity.
  - apply (handleMove_not_committed PVP false (inPlay ratByCenter RED) _
             (mkMove None 16 true)).
    reflexivity.
Defined.

Lemma commit_history gs b log next :
  ∃ logMessage, history (commit gs b log next) = take 50 (logMessage :: history gs).
Proof. unfold commit. destruct next as [[? ?] ?]. simpl. eauto. Qed.

Lemma handleMove_Committed_commit mode ai gs m gs' :
  handleMove mode ai gs m = Committed gs' →
  ∃ b log next, gs' = commit gs b log next.
Proof.
  unfold handleMove. intros H.
  repeat case_match; try discriminate H;
    match type of H with
    | Committed (commit _ ?b ?log ?next) = _ =>
        exists b, log, next; injection H as <-; reflexivity
    end.
Qed.

(** X4. An applied action happens only while there is no winner, passes
    the turn to the other color, and puts one line on top of the history,
    which is cut to 50 lines. *)
Theorem handleMove_committed (mode : GameMode) (ai : bool)
    (gs gs' : GameState) (m : Move) :
  handleMove mode ai gs m = Committed gs' →
  winner gs = None
  ∧ turn gs' = opponent (turn gs)
  ∧ ∃ logMessage, history gs' = take 50 (logMessage :: history gs).
Proof.
  intros H. split; [eapply handleMove_Committed, H |].
  apply handleMove_Committed_commit in H as (b & log & next & ->).
  split; [apply commit_turn | apply commit_history].
Qed.

Lemma handleMove_committed_witness :
  turn (stateOf (handleMove PVP false (inPlay elephantAndRat BLUE)
                   (mkMove (Some 1) 0 false))) = RED.
Proof.
  apply (handleMove_committed PVP false (inPlay elephantAndRat BLUE) _
           (mkMove (Some 1) 0 false)).
  vm_compute. reflexivity.
Defined.

(** ** The binding of the colors *)

Lemma commit_binding gs b log u r bl :
  userColor (commit gs b log (u, r, bl)) = u
  ∧ redPlayer (commit gs b log (u, r, bl)) = r
  ∧ bluePlayer (commit gs b log (u, r, bl)) = bl.
Proof. unfold commit. split_and!; reflexivity. Qed.

(** The binding a committed state carries: the one before, or, on a flip,
    the one [assignColors] computes from the flipped piece. *)
Lemma handleMove_Committed_next mode ai gs m gs' :
  handleMove mode ai gs m = Committed gs' →
  ∃ b log next,
    gs' = commit gs b log next
    ∧ (isFlip m = false ∧ next = (userColor gs, redPlayer gs, bluePlayer gs)
       ∨ ∃ t p, isFlip m = true
                ∧ at_index (board gs) (toIndex m) = Some t
                ∧ piece t = Some p
                ∧ next = assignColors mode ai gs p).
Proof.
  unfold handleMove. intros H.
  destruct (decide (is_Some (winner gs))); [discriminate H |].
  cbv zeta in H. destruct (isFlip m).
  - destruct (at_index (board gs) (toIndex m)) as [t |]; [| discriminate H].
    destruct (piece t) as [p |] eqn:Hp; [| discriminate H].
    eexists _, _, _. split; [injection H as <-; reflexivity |].
    right. exists t, p. rewrite ?Hp. split_and!; reflexivity.
  - repeat case_match; try discriminate H;
      match type of H with
      | Committed (commit _ ?b ?log ?next) = _ =>
          exists b, log, next;
          split; [injection H as <-; reflexivity | left; split; reflexivity]
      end.
Qed.

Lemma userColor_after_commit mode ai gs m gs' :
  handleMove mode ai gs m = Committed gs' →
  is_Some (userColor gs) ∨ isFlip m = true →
  is_Some (userColor gs').
Proof.
  intros (b & log & next & -> & Hnext)%handleMove_Committed_next Hcase.
  destruct Hnext as [[Hstep ->] | (t & p & Hflip & _ & _ & ->)].
  - destruct Hcase as [Hu | Hf]; [| congruence].
    destruct (commit_binding gs b log (userColor gs) (redPlayer gs) (bluePlayer gs))
      as (-> & _). exact Hu.
  - unfold assignColors.
    destruct (decide (userColor gs = None)) as [Hn | Hn].
    + repeat case_match; unfold commit; simpl; eauto.
    + destruct (commit_binding gs b log (userColor gs) (redPlayer gs) (bluePlayer gs))
        as (-> & _). destruct (userColor gs); [eauto | congruence].
Qed.

(** X5. The binding is a latch: a step never touches it, and once the
    user's color is set no action changes the user's color or the
    controllers. *)
Theorem binding_is_latched (mode : GameMode) (ai : bool)
    (gs gs' : GameState) (m : Move) :
  handleMove mode ai gs m = Committed gs' →
  isFlip m = false ∨ is_Some (userColor gs) →
  userColor gs' = userColor gs ∧ redPlayer gs' = redPlayer gs
  ∧ bluePlayer gs' = bluePlayer gs.
Proof.
  intros (b & log & next & -> & Hnext)%handleMove_Committed_next Hcase.
  destruct Hnext as [[_ ->] | (t & p & Hflip & _ & _ & ->)];
    [apply commit_binding |].
  destruct Hcase as [Hstep | [c Hc]]; [congruence |].
  unfold assignColors. rewrite decide_False by congruence. apply commit_binding.
Qed.

Lemma binding_is_latched_witness :
  userColor (stateOf (handleMove PVE true (inPlay elephantAndRat BLUE)
                        (mkMove (Some 1) 0 false))) = Some RED.
Proof.
  apply (binding_is_latched PVE true (inPlay elephantAndRat BLUE) _
           (mkMove (Some 1) 0 false)).
  - vm_compute. reflexivity.
  - left. reflexivity.
Defined.

(** X6. The first flip binds the colors. The flipped piece's color goes to
    whoever flipped: to the user, or, when the automated player flips
    first, to the automated player, the user taking the other color. The
    user's color is in human hands, the other color is the automated
    player's, or another human's in a game between two humans. *)
Theorem first_flip_binds (mode : GameMode) (ai : bool) (gs gs' : GameState)
    (j : Z) (t : Cell) (p : Piece) :
  userColor gs = None →
  at_index (board gs) j = Some t → piece t = Some p →
  handleMove mode ai gs (mkMove None j true) = Committed gs' →
  let mine :=
    if bool_decide (mode = PVE) && ai then opponent (color p) else color p in
  userColor gs' = Some mine
  ∧ controllerOf gs' mine = Some HUMAN
  ∧ controllerOf gs' (opponent mine)
    = Some (if decide (mode = PVP) then HUMAN else AI).
Proof.
  intros Hnone Ht Hp Hgo.
  destruct (handleMove_Committed _ _ _ _ _ Hgo) as [Hw _].
  destruct (handleMove_flip mode ai gs j t p Hw Ht Hp) as [log Hlog].
  rewrite Hlog in Hgo. injection Hgo as <-.
  unfold assignColors, controllerOf, opponent. rewrite decide_True by assumption.
  destruct mode, ai, (color p) eqn:Hc; simpl; split_and!; reflexivity.
Qed.

(** The user flips the hidden Blue Wolf of cell 9 of the unshuffled deck
    against the automated player and gets Blue. *)
Lemma first_flip_binds_witness :
  userColor (stateOf (handleMove PVE false (initGame INITIAL_DECK)
                        (mkMove None 9 true))) = Some BLUE.
Proof.
  apply (first_flip_binds PVE false (initGame INITIAL_DECK) _ 9
           (mkCell 9 (Some (mkPiece "blue-WOLF-9" WOLF BLUE 4)) false)
           (mkPiece "blue-WOLF-9" WOLF BLUE 4));
    vm_compute; reflexivity.
Defined.

Lemma initGame_revealed_empty deck c :
  c ∈ board (initGame deck) → isRevealed c = true → piece c = None.
Proof.
  intros Hc Hrev. cbn in Hc.
  repeat (apply elem_of_cons in Hc as [-> | Hc]); try discriminate Hrev;
    [reflexivity | inversion Hc].
Qed.

Lemma bindingConsistent_commit mode ai gs m gs' :
  bindingConsistent gs → handleMove mode ai gs m = Committed gs' →
  bindingConsistent gs'.
Proof.
  intros Hb (b & log & next & -> & Hnext)%handleMove_Committed_next.
  assert (∀ u r bl, bindingConsistent (mkGameState [] RED None r bl u [])
                    → bindingConsistent (commit gs b log (u, r, bl))) as Hmk.
  { intros u r bl. unfold bindingConsistent, controllerOf. simpl. tauto. }
  destruct Hnext as [[_ ->] | (t & p & _ & _ & _ & ->)].
  - apply Hmk. exact Hb.
  - unfold assignColors.
    destruct (decide (userColor gs = None)); [| apply Hmk; exact Hb].
    repeat case_match; apply Hmk; right; unfold controllerOf, opponent; simpl;
      first [ exists RED; split_and!; simpl; eauto; fail
            | exists BLUE; split_and!; simpl; eauto; fail
            | exists (color p); destruct (color p); split_and!; simpl; eauto ].
Qed.

(** X7. In every reachable state the binding is absent altogether or
    complete with the user's color in human hands; it is absent exactly in
    the freshly built game, before the first flip. *)
Theorem reachable_binding (gs : GameState) :
  reachable gs →
  bindingConsistent gs
  ∧ (userColor gs = None ↔ ∃ deck, shuffled deck ∧ gs = initGame deck).
Proof.
  intros [n Hreach]. split.
  - induction Hreach as [deck Hdeck | gs n mode ai m ms gs' _ IH Hms Hm Hgo].
    + left. split_and!; reflexivity.
    + eapply bindingConsistent_commit; eassumption.
  - split; [| intros (deck & _ & ->); reflexivity].
    induction Hreach as [deck Hdeck | gs n mode ai m ms gs' Hreach IH Hms Hm Hgo];
      [eauto |].
    intros Hnone. exfalso.
    assert (is_Some (userColor gs')) as [c Hsome]; [| congruence].
    apply (userColor_after_commit mode ai gs m gs' Hgo).
    destruct (userColor gs) as [c |] eqn:Hc; [left; eauto | right].
    destruct (IH eq_refl) as (deck & Hdeck & ->).
    pose proof (Inv_init deck Hdeck) as (Hwf & _).
    destruct (getValidMoves_inv _ _ _ _ Hwf Hms Hm)
      as [(j & cell & -> & _) | (i & j & -> & src & a & Hsrc & Hrs & Ha & _)];
      [reflexivity |].
    apply at_index_Some in Hsrc as [_ Hsrc].
    assert (piece src = None) as Hemp.
    { eapply initGame_revealed_empty;
        [eapply list_elem_of_lookup_2, Hsrc | assumption]. }
    congruence.
Qed.

Lemma reachable_binding_witness :
  bindingConsistent (play [mkMove None 9 true] (initGame INITIAL_DECK)).
Proof.
  apply (reachable_binding (play [mkMove None 9 true] (initGame INITIAL_DECK))).
  exists (0 + removedBy (initGame INITIAL_DECK) (mkMove None 9 true))%nat.
  eapply (Reach_step _ _ PVP false).
  - apply Reach_init. unfold shuffled. reflexivity.
  - vm_compute. reflexivity.
  - do 9 right. left.
  - vm_compute. reflexivity.
Defined.

(** ** The verdict *)

Lemma checkWinner_sound b c :
  checkWinner b = Some c →
  unrevealedCount b = 0%nat
  ∧ (0 < colorCount c b)%nat ∧ colorCount (opponent c) b = 0%nat.
Proof.
  assert (opponent RED = BLUE ∧ opponent BLUE = RED) as [HR HB]
    by (split; reflexivity).
  unfold checkWinner.
  repeat case_decide; intros [= <-]; rewrite ?HR, ?HB; split_and!; lia.
Qed.

(** X8. A winner recorded in a reachable state is a color, never a draw;
    nothing is hidden any more, the winner has a piece on the board and
    the other color has none. *)
Theorem reachable_winner_sound (gs : GameState) (w : Winner) :
  reachable gs → winner gs = Some w →
  ∃ c, w = Won c
       ∧ unrevealedCount (board gs) = 0%nat
       ∧ (0 < colorCount c (board gs))%nat
       ∧ colorCount (opponent c) (board gs) = 0%nat.
Proof.
  intros [n Hreach] Hw.
  destruct Hreach as [deck Hdeck | gs n mode ai m ms gs' _ _ _ Hgo];
    [discriminate Hw |].
  apply handleMove_Committed in Hgo as [_ Heq]. rewrite Heq in Hw.
  destruct (checkWinner (board gs')) as [c |] eqn:Hc; [| discriminate Hw].
  injection Hw as <-. exists c. split; [reflexivity |].
  apply checkWinner_sound, Hc.
Qed.

Lemma play_reachable (moves : list Move) (gs : GameState) :
  reachable gs → legalPlay moves gs = true → reachable (play moves gs).
Proof.
  revert gs. induction moves as [| m moves IH]; intros gs Hreach Hlegal;
    [exact Hreach |].
  simpl in *.
  destruct (getValidMoves (board gs) (turn gs)) as [ms |] eqn:Hms;
    [| discriminate Hlegal].
  destruct (handleMove PVP false gs m) as [| | gs'] eqn:Hgo;
    try discriminate Hlegal.
  apply andb_true_iff in Hlegal as [Hm%bool_decide_eq_true Hrest].
  apply IH; [| exact Hrest].
  destruct Hreach as [n Hreach]. eexists. eapply Reach_step; eassumption.
Qed.

Lemma initGame_reachable : reachable (initGame INITIAL_DECK).
Proof. exists 0%nat. apply Reach_init. unfold shuffled. reflexivity. Qed.

(** At the end of [blueWinsGame] Blue has won with the Rat. *)
Lemma reachable_winner_sound_witness :
  ∃ c, Won BLUE = Won c
       ∧ unrevealedCount (board (play blueWinsGame (initGame INITIAL_DECK)))
         = 0%nat
       ∧ (0 < colorCount c (board (play blueWinsGame (initGame INITIAL_DECK))))%nat
       ∧ colorCount (opponent c)
           (board (play blueWinsGame (initGame INITIAL_DECK))) = 0%nat.
Proof.
  apply (reachable_winner_sound (play blueWinsGame (initGame INITIAL_DECK))).
  - apply play_reachable; [apply initGame_reachable | vm_compute; reflexivity].
  - vm_compute. reflexivity.
Defined.

(** ** Progress *)

(** X9. In a reachable state without winner the generator does not raise,
    and every move it offers commits, whoever plays it, into a reachable
    state: no legal move returns early or raises. *)
Theorem legal_moves_always_apply (mode : GameMode) (ai : bool)
    (gs : GameState) :
  reachable gs → winner gs = None →
  ∃ ms, getValidMoves (board gs) (turn gs) = Some ms
        ∧ ∀ m, m ∈ ms →
            ∃ gs', handleMove mode ai gs m = Committed gs' ∧ reachable gs'.
Proof.
  intros Hreach Hw.
  destruct (reachable_moves gs Hreach) as [ms Hms].
  exists ms. split; [exact Hms |].
  intros m Hm. eapply reachable_progress; eassumption.
Qed.

Lemma legal_moves_always_apply_witness :
  ∃ ms, getValidMoves (board (initGame INITIAL_DECK)) RED = Some ms
        ∧ ∀ m, m ∈ ms →
            ∃ gs', handleMove PVE true (initGame INITIAL_DECK) m = Committed gs'
                   ∧ reachable gs'.
Proof.
  apply (legal_moves_always_apply PVE true (initGame INITIAL_DECK)).
  - apply initGame_reachable.
  - reflexivity.
Defined.

(** ** The pieces on the board *)

Lemma pieceAt_Some b k p :
  pieceAt b k = Some p ↔ ∃ c, b !! k = Some c ∧ piece c = Some p.
Proof.
  unfold pieceAt. destruct (b !! k) as [c |]; simpl.
  - split; [eauto | intros (c' & [= <-] & Hp); exact Hp].
  - split; [discriminate | intros (c' & [=] & _)].
Qed.

Lemma initGame_pieceAt deck k p :
  pieceAt (board (initGame deck)) k = Some p → deck !! k = Some p.
Proof.
  intros (c & Hc & Hp)%pieceAt_Some. unfold initGame in Hc. cbn [board] in Hc.
  rewrite list_lookup_fmap in Hc.
  destruct (seq 0 TOTAL_CELLS !! k) as [i |] eqn:Hi; [| discriminate Hc].
  apply lookup_seq in Hi as [-> _]. simpl in Hc. injection Hc as <-.
  destruct (decide (Z.of_nat k = CENTER_INDEX)); simpl in Hp;
    [discriminate Hp | exact Hp].
Qed.

Lemma INITIAL_DECK_NoDup : NoDup INITIAL_DECK.
Proof. apply (bool_decide_unpack (NoDup INITIAL_DECK)). vm_compute. exact I. Qed.

(** The pieces of the board after a legal action, cell by cell. *)
Lemma legal_move_pieceAt mode ai gs n ms m gs' :
  Inv gs n →
  getValidMoves (board gs) (turn gs) = Some ms → m ∈ ms →
  handleMove mode ai gs m = Committed gs' →
  (∀ k, pieceAt (board gs') k = pieceAt (board gs) k)
  ∨ (∃ (i j : nat) a,
       i ≠ j ∧ pieceAt (board gs) i = Some a
       ∧ (pieceAt (board gs') j = None ∨ pieceAt (board gs') j = Some a)
       ∧ ∀ k, pieceAt (board gs') k =
              if decide (k = i) then None
              else if decide (k = j)
                   then pieceAt (board gs') j
                   else pieceAt (board gs) k).
Proof.
  intros (Hwf & Hhid & _) Hms Hm Hgo.
  destruct (handleMove_Committed _ _ _ _ _ Hgo) as [Hw _].
  destruct (getValidMoves_inv _ _ _ _ Hwf Hms Hm)
    as [(j & cell & -> & Hcell & Hrev)
       | (i & j & -> & src & a & Hsrc & Hrs & Ha & Hc & Hn & tgt & Htgt & _)].
  - left. pose proof Hcell as [_ Hlk]%at_index_Some.
    destruct (Hhid cell) as [p Hp];
      [eapply list_elem_of_lookup_2, Hlk | assumption |].
    destruct (handleMove_flip mode ai gs j cell p Hw Hcell Hp) as [log Hlog].
    rewrite Hlog in Hgo. injection Hgo as <-. rewrite commit_board.
    intros k. unfold pieceAt.
    destruct (decide (k = Z.to_nat j)) as [-> | Hk].
    + rewrite list_lookup_insert_eq by (eapply lookup_lt_Some, Hlk).
      rewrite Hlk. reflexivity.
    + rewrite list_lookup_insert_ne by done. reflexivity.
  - right.
    destruct (wf_board_index _ _ _ Hwf Hsrc) as [_ Hirange].
    destruct (neighborsOf_range i j Hirange Hn) as [Hjrange Hne].
    destruct (handleMove_step mode ai gs i j src tgt a Hw (not_eq_sym Hne)
                Hsrc Ha Htgt) as [log Hlog].
    rewrite Hlog in Hgo.
    replace gs' with (commit gs (steppedBoard (board gs) i j src tgt a) log
                        (userColor gs, redPlayer gs, bluePlayer gs))
      by congruence.
    rewrite commit_board.
    pose proof Hsrc as [_ Hlsrc]%at_index_Some.
    pose proof Htgt as [_ Hltgt]%at_index_Some.
    assert (Z.to_nat i ≠ Z.to_nat j) as Hnat by lia.
    assert (∀ k : nat,
              steppedBoard (board gs) i j src tgt a !! k =
                if decide (k = Z.to_nat i)
                then Some (mkCell (index src) None (isRevealed src))
                else if decide (k = Z.to_nat j)
                then Some (mkCell (index tgt)
                             match piece tgt with
                             | Some d =>
                                 if decide (rank a = rank d) then None else Some a
                             | None => Some a
                             end (isRevealed tgt))
                else board gs !! k) as Hlook.
    { intros k.
      pose proof (steppedBoard_lookup (board gs) i j (Z.of_nat k) src tgt a
                    Hnat Hlsrc Hltgt) as H.
      rewrite Nat2Z.id in H. exact H. }
    exists (Z.to_nat i), (Z.to_nat j), a. split_and!.
    + exact Hnat.
    + apply pieceAt_Some. eauto.
    + unfold pieceAt. rewrite Hlook.
      rewrite decide_False by done. rewrite decide_True by reflexivity. simpl.
      destruct (piece tgt) as [d |]; [destruct (decide (rank a = rank d)) |];
        auto.
    + intros k. unfold pieceAt. rewrite !Hlook.
      destruct (decide (k = Z.to_nat i)); [reflexivity |].
      destruct (decide (k = Z.to_nat j)) as [-> |]; [| reflexivity].
      rewrite decide_False by done. rewrite decide_True by reflexivity.
      reflexivity.
Qed.

(** X10. In every reachable state the pieces on the board are pieces of
    the deck, and no piece stands on two cells. *)
Theorem reachable_pieces (gs : GameState) :
  reachable gs →
  distinctPieces (board gs)
  ∧ ∀ p, p ∈ piecesOf (board gs) → p ∈ INITIAL_DECK.
Proof.
  intros [n Hreach].
  assert ((∀ k1 k2 p, pieceAt (board gs) k1 = Some p →
                      pieceAt (board gs) k2 = Some p → k1 = k2)
          ∧ (∀ k p, pieceAt (board gs) k = Some p → p ∈ INITIAL_DECK))
    as [Hd Hf].
  { induction Hreach as [deck Hdeck | gs n mode ai m ms gs' Hreach IH Hms Hm Hgo].
    - unfold shuffled in Hdeck. split.
      + intros k1 k2 p H1%initGame_pieceAt H2%initGame_pieceAt.
        eapply NoDup_lookup; [| exact H1 | exact H2].
        rewrite Hdeck. apply INITIAL_DECK_NoDup.
      + intros k p H%initGame_pieceAt. rewrite <- Hdeck.
        eapply list_elem_of_lookup_2, H.
    - destruct IH as [IHd IHf].
      destruct (legal_move_pieceAt mode ai gs n ms m gs' (Reach_Inv _ _ Hreach)
                  Hms Hm Hgo)
        as [Hsame | (i & j & a & Hne & Ha & Hj & Hat)].
      + split; intros *; rewrite !Hsame; eauto.
      + assert (∀ k p, pieceAt (board gs') k = Some p →
                       k ≠ i ∧ (k = j ∧ p = a ∨ k ≠ j ∧ pieceAt (board gs) k = Some p))
          as Hcases.
        { intros k p Hk. rewrite Hat in Hk.
          destruct (decide (k = i)); [discriminate Hk |]. split; [assumption |].
          destruct (decide (k = j)) as [-> |]; [| right; auto].
          left. split; [reflexivity |]. destruct Hj as [Hj | Hj]; congruence. }
        split.
        * intros k1 k2 p [Hk1 H1]%Hcases [Hk2 H2]%Hcases.
          destruct H1 as [[-> ->] | [Hn1 H1]], H2 as [[-> Hp] | [Hn2 H2]];
            try reflexivity.
          -- exfalso. apply Hk2. eapply IHd; eassumption.
          -- subst p. exfalso. apply Hk1. eapply IHd; eassumption.
          -- eapply IHd; eassumption.
        * intros k p [_ [[-> ->] | [_ H]]]%Hcases; eauto. }
  split.
  - intros k1 k2 c1 c2 p H1 H2 Hp1 Hp2.
    apply (Hd k1 k2 p); apply pieceAt_Some; eauto.
  - intros p (c & [k Hk]%list_elem_of_lookup & Hp)%elem_of_piecesOf.
    apply (Hf k p). apply pieceAt_Some. eauto.
Qed.

Lemma reachable_pieces_witness :
  distinctPieces (board (play blueWinsGame (initGame INITIAL_DECK))).
Proof.
  apply (reachable_pieces (play blueWinsGame (initGame INITIAL_DECK))).
  apply play_reachable; [apply initGame_reachable | vm_compute; reflexivity].
Defined.

(** ** The moves the generator offers *)





(** X12. On a well-formed board a step offered to a color starts from a
    revealed piece of that color and leads to a cell that [isAdjacent]
    relates to it, which is revealed and holds no piece of that color. *)
Theorem generated_step_shape (b : list Cell) (c : PlayerColor)
    (ms : list Move) (m : Move) :
  wf_board b → getValidMoves b c = Some ms → m ∈ ms → isFlip m = false →
  ∃ i src p tgt,
    fromIndex m = Some i
    ∧ isAdjacent i (toIndex m) = true
    ∧ at_index b i = Some src ∧ isRevealed src = true
    ∧ piece src = Some p ∧ color p = c
    ∧ at_index b (toIndex m) = Some tgt ∧ isRevealed tgt = true
    ∧ ∀ d, piece tgt = Some d → color d ≠ c.
Proof.
  intros Hwf Hms Hm Hflip.
  destruct (getValidMoves_inv _ _ _ _ Hwf Hms Hm)
    as [(j & cell & -> & _) | (i & j & -> & src & p & Hsrc & Hrs & Hp & Hc & Hn
                               & tgt & Htgt & Hrt & _ & Hatt)];
    [discriminate Hflip |].
  destruct (wf_board_index _ _ _ Hwf Hsrc) as [_ Hi].
  exists i, src, p, tgt. simpl. split_and!; try done.
  - apply (neighborsOf_adjacent i j Hi), Hn.
  - intros d Hd. apply (Hatt d Hd).
Qed.

Lemma generated_step_shape_witness :
  ∃ i src p tgt,
    Some 1 = Some i ∧ isAdjacent i 0 = true
    ∧ at_index elephantAndRat i = Some src ∧ isRevealed src = true
    ∧ piece src = Some p ∧ color p = BLUE
    ∧ at_index elephantAndRat 0 = Some tgt ∧ isRevealed tgt = true
    ∧ ∀ d, piece tgt = Some d → color d ≠ BLUE.
Proof.
  apply (generated_step_shape elephantAndRat BLUE
           [mkMove (Some 1) 0 false; mkMove (Some 1) 2 false;
            mkMove (Some 1) 5 false] (mkMove (Some 1) 0 false)).
  - apply wf_board_check; reflexivity.
  - vm_compute. reflexivity.
  - left.
  - reflexivity.
Defined.

(** X13. On a well-formed board the flips offered are those of the hidden
    cells, the same for both colors, and a flip carries no source. *)
Theorem generated_flips (b : list Cell) (c : PlayerColor) (ms : list Move) :
  wf_board b → getValidMoves b c = Some ms →
  (∀ m, m ∈ ms → isFlip m = true → fromIndex m = None)
  ∧ (∀ j, mkMove None j true ∈ ms
          ↔ ∃ cell, at_index b j = Some cell ∧ isRevealed cell = false).
Proof.
  intros Hwf Hms. split.
  - intros m Hm Hflip.
    destruct (getValidMoves_inv _ _ _ _ Hwf Hms Hm)
      as [(j & cell & -> & _) | (i & j & -> & _)];
      [reflexivity | discriminate Hflip].
  - intros j. split.
    + intros Hm.
      destruct (getValidMoves_inv _ _ _ _ Hwf Hms Hm)
        as [(j' & cell & [= <-] & Hcell & Hrev) | (i & j' & [=] & _)].
      eauto.
    + intros (cell & Hcell & Hrev).
      destruct (wf_board_index _ _ _ Hwf Hcell) as [Hidx _].
      apply at_index_Some in Hcell as [_ Hlk].
      apply (forEachPush_Some_elem _ _ _ (mkMove None j true)) in Hms.
      apply Hms. exists cell, [mkMove None j true]. split_and!.
      * eapply list_elem_of_lookup_2, Hlk.
      * unfold visitCell. rewrite Hrev, Hidx. reflexivity.
      * left.
Qed.

Lemma generated_flips_witness :
  mkMove None 3 true ∈ (λ i : nat, mkMove None (Z.of_nat i) true) <$> seq 0 16.
Proof.
  apply (generated_flips (board (initGame INITIAL_DECK)) BLUE).
  - apply wf_board_check; reflexivity.
  - vm_compute. reflexivity.
  - eexists. split; [vm_compute; reflexivity | reflexivity].
Defined.

Lemma forEachPush_NoDup {A B K} (f : A → option (list B)) (key : B → K)
    (h : A → K) (l : list A) (ms : list B) :
  forEachPush f l = Some ms → NoDup (h <$> l) →
  (∀ a out, a ∈ l → f a = Some out →
     NoDup out ∧ ∀ x, x ∈ out → key x = h a) →
  NoDup ms.
Proof.
  revert ms. induction l as [| a l IH]; intros ms; simpl.
  - intros [= <-] _ _. constructor.
  - destruct (f a) as [out |] eqn:Ha; [| discriminate].
    destruct (forEachPush f l) as [rest |] eqn:Hrest; [| discriminate].
    intros [= <-] [Hnotin Hnd]%NoDup_cons Hall.
    destruct (Hall a out) as [Hout Hkey]; [left | assumption |].
    apply NoDup_app. split_and!.
    + exact Hout.
    + intros x Hx Hx'.
      apply (forEachPush_Some_elem f l rest x Hrest) in Hx'
        as (a' & out' & Ha' & Hf' & Hx').
      destruct (Hall a' out') as [_ Hkey']; [right; assumption | assumption |].
      apply Hnotin. rewrite <- (Hkey x Hx), (Hkey' x Hx').
      apply list_elem_of_fmap. eauto.
    + apply (IH rest eq_refl Hnd).
      intros a' out' Ha'. apply Hall. right. exact Ha'.
Qed.

Lemma neighborsOf_NoDup (i : Z) : 0 ≤ i ≤ 16 → NoDup (neighborsOf i).
Proof.
  intros Hi.
  assert (i ∈ seqZ 0 17) as Hin by (apply elem_of_seqZ; lia).
  cbv in Hin.
  repeat (apply elem_of_cons in Hin as [-> | Hin]); [.. | inversion Hin];
    apply (bool_decide_unpack (NoDup _)); vm_compute; exact I.
Qed.

Lemma wf_board_index_NoDup b : wf_board b → NoDup (index <$> b).
Proof.
  intros [_ Hidx]. apply NoDup_alt. intros i j x Hi Hj.
  apply list_lookup_fmap_Some in Hi as (ci & -> & Hci).
  apply list_lookup_fmap_Some in Hj as (cj & Heq & Hcj).
  apply Hidx in Hci, Hcj. lia.
Qed.

(** X14. On a well-formed board the generator offers no move twice. *)
Theorem generated_moves_NoDup (b : list Cell) (c : PlayerColor)
    (ms : list Move) :
  wf_board b → getValidMoves b c = Some ms → NoDup ms.
Proof.
  intros Hwf Hms.
  apply (forEachPush_NoDup (visitCell b c)
           (λ m, default (toIndex m) (fromIndex m)) index b ms Hms).
  { apply wf_board_index_NoDup, Hwf. }
  intros cell out Hcell Hout. unfold visitCell in Hout.
  destruct (isRevealed cell); simpl in Hout.
  - destruct (piece cell) as [p |];
      [| injection Hout as <-; split; [constructor | intros x Hx; inversion Hx]].
    destruct (decide (color p = c));
      [| injection Hout as <-; split; [constructor | intros x Hx; inversion Hx]].
    split.
    + apply (forEachPush_NoDup (visitTarget b c cell p) toIndex (λ t : Z, t)
               (neighborsOf (index cell)) out Hout).
      * assert (∀ l : list Z, (λ t : Z, t) <$> l = l) as Hid
          by (intros l; induction l as [| z l IHl];
              [reflexivity | rewrite fmap_cons, IHl; reflexivity]).
        rewrite Hid. apply neighborsOf_NoDup.
        pose proof (wf_board_elem _ _ Hwf Hcell) as Hat.
        apply (wf_board_index _ _ _ Hwf Hat).
      * intros t out' _ Hvt. split.
        -- unfold visitTarget in Hvt.
           repeat case_match; try discriminate Hvt; injection Hvt as <-;
             first [apply NoDup_singleton | constructor].
        -- intros x Hx.
           destruct (visitTarget_elem _ _ _ _ _ _ _ Hvt Hx) as [-> _].
           reflexivity.
    + intros x Hx.
      apply (forEachPush_Some_elem _ _ _ x) in Hout. apply Hout in Hx.
      destruct Hx as (t & out' & _ & Hvt & Hx).
      destruct (visitTarget_elem _ _ _ _ _ _ _ Hvt Hx) as [-> _]. reflexivity.
  - injection Hout as <-. split; [apply NoDup_singleton |].
    intros x ->%list_elem_of_singleton. reflexivity.
Qed.

Lemma generated_moves_NoDup_witness :
  NoDup [mkMove (Some 1) 0 false; mkMove (Some 1) 2 false;
         mkMove (Some 1) 5 false].
Proof.
  apply (generated_moves_NoDup elephantAndRat BLUE).
  - apply wf_board_check; reflexivity.
  - vm_compute. reflexivity.
Defined.

(** ** Clicks *)

Lemma flip_generated b c ms j cell :
  wf_board b → getValidMoves b c = Some ms →
  at_index b j = Some cell → isRevealed cell = false →
  mkMove None j true ∈ ms.
Proof.
  intros Hwf Hms Hcell Hrev.
  destruct (wf_board_index _ _ _ Hwf Hcell) as [Hidx _].
  apply at_index_Some in Hcell as [_ Hlk].
  apply (forEachPush_Some_elem _ _ _ (mkMove None j true)) in Hms.
  apply Hms. exists cell, [mkMove None j true]. split_and!.
  - eapply list_elem_of_lookup_2, Hlk.
  - unfold visitCell. rewrite Hrev, Hidx. reflexivity.
  - left.
Qed.

Lemma handleMoveApp_Committed app m app' :
  handleMoveApp app m = Committed app' →
  handleMove (gameMode app) (aiThinking app) (gameState app) m
  = Committed (gameState app')
  ∧ selectedIndex app' = None.
Proof.
  unfold handleMoveApp.
  destruct (handleMove _ _ _ m); intros [= <-]. split; reflexivity.
Qed.

(** X15. On a well-formed board a click applies an action only if it is a
    move the generator offers to the player to move: the flip of the
    clicked hidden cell, or the step from the selected cell to the
    clicked one. The selection is cleared with it. *)
Theorem click_applies_generated_move (app app' : App) (idx : Z) :
  wf_board (board (gameState app)) →
  handleCellClick app idx = Committed app' →
  ∃ ms m,
    getValidMoves (board (gameState app)) (turn (gameState app)) = Some ms
    ∧ m ∈ ms ∧ toIndex m = idx
    ∧ (fromIndex m = selectedIndex app)
    ∧ handleMove (gameMode app) (aiThinking app) (gameState app) m
      = Committed (gameState app')
    ∧ selectedIndex app' = None.
Proof.
  intros Hwf. unfold handleCellClick.
  destruct (_ || _ || _); [discriminate |].
  destruct (_ && _); [discriminate |].
  destruct (at_index (board (gameState app)) idx) as [cell |] eqn:Hcell;
    [| discriminate].
  destruct (getValidMoves_is_Some (board (gameState app))
              (turn (gameState app)) Hwf) as [ms Hms].
  destruct (isRevealed cell) eqn:Hrev; simpl.
  - destruct (selectedIndex app) as [sel |] eqn:Hsel;
      [| destruct (match piece cell with Some _ => _ | None => _ end);
         discriminate].
    destruct (decide (idx = sel)); [discriminate |].
    rewrite Hms.
    destruct (List.find _ ms) as [m |] eqn:Hfind;
      [| destruct (match piece cell with Some _ => _ | None => _ end);
         discriminate].
    apply List.find_some in Hfind as [Hin [Hfrom Hto]%bool_decide_eq_true].
    intros [Hgo Hnone]%handleMoveApp_Committed.
    exists ms, m. split_and!; try done. apply list_elem_of_In, Hin.
  - destruct (selectedIndex app) as [sel |] eqn:Hsel; [discriminate |].
    intros [Hgo Hnone]%handleMoveApp_Committed.
    exists ms, (mkMove None idx true). split_and!; try done.
    eapply flip_generated; eassumption.
Qed.

(** With nothing selected, the user clicks the hidden cell 9. *)
Lemma click_applies_generated_move_witness :
  ∃ ms m,
    getValidMoves (board (initGame INITIAL_DECK)) RED = Some ms
    ∧ m ∈ ms ∧ toIndex m = 9 ∧ fromIndex m = None
    ∧ handleMove PVP false (initGame INITIAL_DECK) m
      = Committed (play [mkMove None 9 true] (initGame INITIAL_DECK))
    ∧ @None Z = None.
Proof.
  apply (click_applies_generated_move
           (mkApp PVP (initGame INITIAL_DECK) None false false)
           (mkApp PVP (play [mkMove None 9 true] (initGame INITIAL_DECK))
              None false false) 9).
  - apply wf_board_check; reflexivity.
  - vm_compute. reflexivity.
Defined.

Lemma find_generated_step b c ms sel idx :
  wf_board b → getValidMoves b c = Some ms →
  mkMove (Some sel) idx false ∈ ms →
  List.find (λ m, bool_decide (fromIndex m = Some sel ∧ toIndex m = idx)) ms
  = Some (mkMove (Some sel) idx false).
Proof.
  intros Hwf Hms Hm.
  destruct (List.find _ ms) as [m' |] eqn:Hfind.
  - apply List.find_some in Hfind as [Hin [Hfrom Hto]%bool_decide_eq_true].
    apply list_elem_of_In in Hin.
    destruct (getValidMoves_inv _ _ _ _ Hwf Hms Hin)
      as [(j & cell & -> & _) | (i & j & -> & _)]; [discriminate Hfrom |].
    simpl in *. congruence.
  - apply list_elem_of_In in Hm.
    pose proof (List.find_none _ _ Hfind _ Hm) as Hno. simpl in Hno.
    apply bool_decide_eq_false in Hno. destruct Hno. split; reflexivity.
Qed.

(** X16. In a reachable state without winner, when the user may act and
    has selected a cell, a click on a cell that the generator joins to the
    selection by a step applies that very step. *)
Theorem click_applies_legal_step (app : App) (sel idx : Z) (ms : list Move) :
  reachable (gameState app) → winner (gameState app) = None →
  isProcessing app = false → aiThinking app = false →
  gameMode app = PVP ∨ isMyTurn (gameState app) = true →
  selectedIndex app = Some sel →
  getValidMoves (board (gameState app)) (turn (gameState app)) = Some ms →
  mkMove (Some sel) idx false ∈ ms →
  ∃ gs',
    handleMove (gameMode app) false (gameState app) (mkMove (Some sel) idx false)
    = Committed gs'
    ∧ handleCellClick app idx
      = Committed (mkApp (gameMode app) gs' None false false).
Proof.
  intros Hreach Hw Hproc Hai Hturn Hsel Hms Hm.
  destruct (reachable_wf_board _ Hreach) as (Hwf & _).
  destruct (reachable_progress (gameMode app) false _ ms _ Hreach Hw Hms Hm)
    as (gs' & Hgo & _).
  exists gs'. split; [exact Hgo |].
  pose proof Hm as Hstep.
  apply (getValidMoves_step _ _ _ _ _ Hwf Hms) in Hstep
    as (src & p & Hsrc & _ & _ & _ & Hn & tgt & Htgt & Hrt & _).
  destruct (wf_board_index _ _ _ Hwf Hsrc) as [_ Hrange].
  destruct (neighborsOf_range sel idx Hrange Hn) as [_ Hne].
  unfold handleCellClick. rewrite Hw, Hproc, Hai. simpl.
  replace (bool_decide (gameMode app = PVE) && negb (isMyTurn (gameState app)))
    with false.
  2:{ destruct Hturn as [-> | ->]; [reflexivity |]. rewrite andb_false_r.
      reflexivity. }
  rewrite Htgt, Hrt, Hsel. simpl.
  rewrite decide_False by exact Hne.
  rewrite Hms, (find_generated_step _ _ _ _ _ Hwf Hms Hm).
  unfold handleMoveApp. rewrite Hai, Hgo, Hproc. reflexivity.
Qed.

(** After the two Elephants are revealed Red selects its own on cell 0 and
    clicks cell 1. *)
Lemma click_applies_legal_step_witness :
  ∃ gs',
    handleMove PVP false
      (play [mkMove None 0 true; mkMove None 1 true] (initGame INITIAL_DECK))
      (mkMove (Some 0) 1 false) = Committed gs'
    ∧ handleCellClick
        (mkApp PVP
           (play [mkMove None 0 true; mkMove None 1 true] (initGame INITIAL_DECK))
           (Some 0) false false) 1
      = Committed (mkApp PVP gs' None false false).
Proof.
  apply (click_applies_legal_step
           (mkApp PVP
              (play [mkMove None 0 true; mkMove None 1 true]
                    (initGame INITIAL_DECK))
              (Some 0) false false) 0 1
           (mkMove (Some 0) 1 false
            :: ((λ i : nat, mkMove None (Z.of_nat i) true) <$> seq 2 14))).
  - apply play_reachable; [apply initGame_reachable | vm_compute; reflexivity].
  - vm_compute. reflexivity.
  - reflexivity.
  - reflexivity.
  - left. reflexivity.
  - reflexivity.
  - vm_compute. reflexivity.
  - left.
Defined.

Lemma handleMove_step_Threw mode ai gs m gs' :
  isFlip m = false → handleMove mode ai gs m = Threw gs' → gs' = gs.
Proof.
  unfold handleMove. intros Hflip H. rewrite Hflip in H.
  repeat case_match; try discriminate H; injection H as <-; reflexivity.
Qed.

Lemma selectionOk_set app idx cell p :
  at_index (board (gameState app)) idx = Some cell →
  isRevealed cell = true → piece cell = Some p →
  color p = turn (gameState app) →
  selectionOk (setSelectedIndex (Some idx) app).
Proof.
  intros Hcell Hrev Hp Hc sel [= <-]. simpl. eauto 10.
Qed.

(** X17. Clicks keep the selection sound: if the selection, when there is
    one, is a revealed piece of the player to move, it is so again after
    any click, however the click ends. *)
Theorem click_keeps_selection (app : App) (idx : Z) :
  selectionOk app → selectionOk (stateOf (handleCellClick app idx)).
Proof.
  intros Hok.
  assert (∀ a, selectedIndex a = None → selectionOk a) as Hnone
    by (intros a Ha sel Hs; congruence).
  assert (∀ m, selectedIndex app = None ∨ isFlip m = false →
               selectionOk (stateOf (handleMoveApp app m))) as Hmove.
  { intros m Hcase. unfold handleMoveApp.
    destruct (handleMove _ _ _ m) as [gs' | gs' | gs'] eqn:Hgo; simpl.
    - exact Hok.
    - destruct Hcase as [Hs | Hf]; [apply Hnone; exact Hs |].
      apply (handleMove_step_Threw _ _ _ _ _ Hf) in Hgo as ->.
      destruct app; exact Hok.
    - apply Hnone. reflexivity. }
  unfold handleCellClick.
  destruct (_ || _ || _); [exact Hok |].
  destruct (_ && _); [exact Hok |].
  destruct (at_index (board (gameState app)) idx) as [cell |] eqn:Hcell;
    [| exact Hok].
  destruct (isRevealed cell) eqn:Hrev; simpl.
  - assert (match piece cell with
            | Some p => bool_decide (color p = turn (gameState app))
            | None => false
            end = true → selectionOk (setSelectedIndex (Some idx) app)) as Hown.
    { intros Hp. destruct (piece cell) as [p |] eqn:Hpc; [| discriminate Hp].
      apply bool_decide_eq_true in Hp. eapply selectionOk_set; eassumption. }
    destruct (selectedIndex app) as [sel |] eqn:Hsel.
    + destruct (decide (idx = sel)); [apply Hnone; reflexivity |].
      destruct (getValidMoves _ _) as [ms |] eqn:Hms; [| exact Hok].
      destruct (List.find _ ms) as [m |] eqn:Hfind.
      * apply List.find_some in Hfind as [Hin [Hfrom _]%bool_decide_eq_true].
        apply list_elem_of_In in Hin.
        apply Hmove; right;
          destruct (getValidMoves_elem _ _ _ _ Hms Hin)
            as [(c0 & _ & _ & ->) | (c0 & p0 & _ & _ & _ & _ & _ & -> & _)];
          try discriminate Hfrom; reflexivity.
      * destruct (match piece cell with Some _ => _ | None => _ end) eqn:Hp;
          simpl; [apply Hown; reflexivity | apply Hnone; reflexivity].
    + destruct (match piece cell with Some _ => _ | None => _ end) eqn:Hp;
        simpl; [apply Hown; reflexivity | exact Hok].
  - destruct (selectedIndex app) as [sel |] eqn:Hsel;
      [apply Hnone; reflexivity |].
    apply Hmove; left; reflexivity.
Qed.

Lemma click_keeps_selection_witness :
  selectionOk
    (stateOf (handleCellClick
                (mkApp PVP (inPlay elephantAndRat RED) None false false) 0)).
Proof.
  apply (click_keeps_selection
           (mkApp PVP (inPlay elephantAndRat RED) None false false) 0).
  intros sel Hsel. discriminate Hsel.
Defined.

(** ** The highlight *)

Lemma canAttackShown_canAttack (mine target : Piece) :
  canAttackShown mine target = canAttack mine target.
Proof.
  unfold canAttackShown, canAttack. cbv zeta.
  repeat case_decide; try reflexivity;
    first [apply bool_decide_eq_true_2 | apply bool_decide_eq_false_2];
    assumption.
Qed.

(** X18. With a revealed piece of the player to move selected on a
    well-formed board, the render computes the highlight of every cell
    without raising, and highlights exactly the cells to which the
    generator offers a step from the selection. *)
Theorem highlight_matches_generator (gs : GameState) (sel : Z)
    (src cell : Cell) (p : Piece) (ms : list Move) :
  wf_board (board gs) →
  at_index (board gs) sel = Some src → isRevealed src = true →
  piece src = Some p → color p = turn gs →
  cell ∈ board gs →
  getValidMoves (board gs) (turn gs) = Some ms →
  ∃ v, isValidTarget gs (Some sel) cell = Some v
       ∧ (v = true ↔ mkMove (Some sel) (index cell) false ∈ ms).
Proof.
  intros Hwf Hsrc Hrs Hp Hc Hin Hms.
  pose proof (wf_board_elem _ _ Hwf Hin) as Hcell.
  destruct (wf_board_index _ _ _ Hwf Hsrc) as [_ Hsel].
  destruct (wf_board_index _ _ _ Hwf Hcell) as [_ Hj].
  set (j := index cell) in *.
  assert (mkMove (Some sel) j false ∈ ms
          ↔ isAdjacent sel j = true ∧ isRevealed cell = true
            ∧ (j = CENTER_INDEX → type p = RAT ∧ piece cell = None)
            ∧ (∀ d, piece cell = Some d →
                    color d ≠ turn gs ∧ canAttack p d = true)) as Hlegal.
  { rewrite (getValidMoves_step _ _ _ sel j Hwf Hms). split.
    - intros (src' & p' & Hsrc' & _ & Hp' & _ & Hn & tgt & Htgt & Hrt & Hgate & Hatt).
      rewrite Hsrc in Hsrc'. injection Hsrc' as <-.
      rewrite Hp in Hp'. injection Hp' as <-.
      rewrite Hcell in Htgt. injection Htgt as <-.
      apply (neighborsOf_adjacent sel j Hsel) in Hn as [_ Hadj]. auto.
    - intros (Hadj & Hrt & Hgate & Hatt).
      exists src, p. split_and!; try done.
      + apply (neighborsOf_adjacent sel j Hsel). auto.
      + exists cell. auto. }
  unfold isValidTarget. fold j.
  destruct (isAdjacent sel j) eqn:Hadj.
  2:{ rewrite andb_false_r. exists false. split; [reflexivity |].
      rewrite Hlegal. intuition discriminate. }
  assert (j ≠ sel) as Hne.
  { intros ->. rewrite isAdjacent_irrefl in Hadj. discriminate. }
  rewrite bool_decide_eq_true_2 by exact Hne. simpl. rewrite Hsrc. simpl.
  rewrite Hp. simpl.
  assert (∀ v, (if decide (j = CENTER_INDEX)
                then Some (bool_decide (Some (type p) = Some RAT)
                           && bool_decide (piece cell = None))
                else Some true) = Some v →
               v = true ↔ (j = CENTER_INDEX → type p = RAT ∧ piece cell = None))
    as Hgate.
  { intros v. destruct (decide (j = CENTER_INDEX)) as [Hcen | Hcen].
    - intros [= <-]. rewrite andb_true_iff, !bool_decide_eq_true.
      split; [intros [[= ->] ->] _; auto | intros H; destruct (H Hcen) as [-> ->]; auto].
    - intros [= <-]. tauto. }
  destruct (if decide (j = CENTER_INDEX) then _ else _) as [canEnter |] eqn:Hce.
  2:{ destruct (decide (j = CENTER_INDEX)); discriminate Hce. }
  specialize (Hgate canEnter eq_refl).
  destruct canEnter.
  2:{ exists false. split; [reflexivity |]. rewrite Hlegal.
      split; [discriminate |]. intros (_ & _ & Hg & _).
      apply Hgate in Hg. discriminate Hg. }
  destruct Hgate as [Hgate _]. specialize (Hgate eq_refl).
  destruct (isRevealed cell) eqn:Hrt; simpl.
  2:{ exists false. split; [reflexivity |]. rewrite Hlegal.
      intuition discriminate. }
  destruct (piece cell) as [d |] eqn:Hd.
  - destruct (decide (color d ≠ turn gs)) as [Hcd | Hcd].
    + exists (canAttackShown p d). split; [reflexivity |].
      rewrite Hlegal, canAttackShown_canAttack. split.
      * intros Hatt. split_and!; try done. intros d' [= <-]. auto.
      * intros (_ & _ & _ & Hatt). apply (Hatt d eq_refl).
    + exists false. split; [reflexivity |]. rewrite Hlegal.
      split; [discriminate |]. intros (_ & _ & _ & Hatt).
      destruct (Hatt d eq_refl) as [Hcd' _]. contradiction.
  - exists true. split; [reflexivity |]. rewrite Hlegal.
    split; [| reflexivity]. intros _. split_and!; try done.
Qed.

(** The Red Elephant selected on cell 0: the empty cell 4 is highlighted,
    the cell of the Blue Rat is not. *)
Lemma highlight_matches_generator_witness :
  ∃ v, isValidTarget (inPlay elephantAndRat RED) (Some 0)
         (mkCell 1 (Some blueRat) true) = Some v
       ∧ (v = true ↔ mkMove (Some 0) 1 false ∈ [mkMove (Some 0) 4 false]).
Proof.
  apply (highlight_matches_generator (inPlay elephantAndRat RED) 0
           (mkCell 0 (Some redElephant) true) (mkCell 1 (Some blueRat) true)
           redElephant [mkMove (Some 0) 4 false]).
  - apply wf_board_check; reflexivity.
  - reflexivity.
  - reflexivity.
  - reflexivity.
  - reflexivity.
  - right. left.
  - vm_compute. reflexivity.
Defined.

(** ** Flips and plain moves *)

(** X19. While there is no winner, flipping a hidden cell that holds a
    piece commits: that cell is revealed with its piece, every other cell
    is as before, and one cell fewer is hidden. *)
Theorem flip_outcome (mode : GameMode) (ai : bool) (gs : GameState) (j : Z)
    (cell : Cell) (p : Piece) :
  winner gs = None →
  at_index (board gs) j = Some cell → piece cell = Some p →
  isRevealed cell = false →
  ∃ gs',
    handleMove mode ai gs (mkMove None j true) = Committed gs'
    ∧ at_index (board gs') j = Some (mkCell (index cell) (Some p) true)
    ∧ (∀ k, k ≠ j → at_index (board gs') k = at_index (board gs) k)
    ∧ (unrevealedCount (board gs') + 1 = unrevealedCount (board gs))%nat.
Proof.
  intros Hw Hcell Hp Hrev.
  destruct (handleMove_flip mode ai gs j cell p Hw Hcell Hp) as [log Hlog].
  eexists. split; [exact Hlog |]. rewrite commit_board.
  pose proof Hcell as [Hj Hlk]%at_index_Some.
  pose proof (lookup_lt_Some _ _ _ Hlk) as Hlt.
  split_and!.
  - apply at_index_Some. split; [exact Hj |].
    rewrite list_lookup_insert_eq by exact Hlt. rewrite Hp. reflexivity.
  - intros k Hk. unfold at_index. destruct (decide (0 ≤ k)); [| reflexivity].
    apply list_lookup_insert_ne. lia.
  - unfold unrevealedCount.
    pose proof (length_filter_insert (λ c, isRevealed c = false) (board gs)
                  (Z.to_nat j) (mkCell (index cell) (piece cell) true) cell Hlk)
      as Hcount.
    simpl in Hcount. rewrite Hrev in Hcount. simpl in Hcount. lia.
Qed.

Lemma flip_outcome_witness :
  ∃ gs',
    handleMove PVP false (initGame INITIAL_DECK) (mkMove None 15 true)
    = Committed gs'
    ∧ at_index (board gs') 15 = Some (mkCell 15 (Some blueRat) true)
    ∧ (∀ k, k ≠ 15 →
          at_index (board gs') k = at_index (board (initGame INITIAL_DECK)) k)
    ∧ (unrevealedCount (board gs') + 1
       = unrevealedCount (board (initGame INITIAL_DECK)))%nat.
Proof.
  apply (flip_outcome PVP false (initGame INITIAL_DECK) 15
           (mkCell 15 (Some blueRat) false) blueRat); vm_compute; reflexivity.
Defined.

(** X20. Applying a legal step onto a cell without a piece moves the
    piece: it stands on the destination, the source is empty, both stay
    revealed, every other cell is as before and no piece leaves the
    board. *)
Theorem plain_move_outcome (mode : GameMode) (ai : bool) (gs : GameState)
    (ms : list Move) (i j : Z) (src tgt : Cell) (mover : Piece) :
  wf_board (board gs) → winner gs = None →
  getValidMoves (board gs) (turn gs) = Some ms →
  mkMove (Some i) j false ∈ ms →
  at_index (board gs) i = Some src → piece src = Some mover →
  at_index (board gs) j = Some tgt → piece tgt = None →
  ∃ gs',
    handleMove mode ai gs (mkMove (Some i) j false) = Committed gs'
    ∧ at_index (board gs') i = Some (mkCell i None true)
    ∧ at_index (board gs') j = Some (mkCell j (Some mover) true)
    ∧ (∀ k, k ≠ i → k ≠ j → at_index (board gs') k = at_index (board gs) k)
    ∧ piecesOnBoard (board gs') = piecesOnBoard (board gs).
Proof.
  intros Hwf Hw Hms Hm Hsrc Ha Htgt Hd.
  apply (getValidMoves_step _ _ _ _ _ Hwf Hms) in Hm
    as (src' & p & Hsrc' & Hrs & _ & _ & Hn & tgt' & Htgt' & Hrt & _).
  rewrite Hsrc in Hsrc'. injection Hsrc' as <-.
  rewrite Htgt in Htgt'. injection Htgt' as <-.
  destruct (wf_board_index _ _ _ Hwf Hsrc) as [Hisrc Hi].
  destruct (wf_board_index _ _ _ Hwf Htgt) as [Hitgt Hj].
  destruct (neighborsOf_range i j Hi Hn) as [_ Hne].
  destruct (handleMove_step mode ai gs i j src tgt mover Hw
              (not_eq_sym Hne) Hsrc Ha Htgt) as [log Hlog].
  eexists. split; [exact Hlog |]. rewrite commit_board.
  pose proof Hsrc as [_ Hlsrc]%at_index_Some.
  pose proof Htgt as [_ Hltgt]%at_index_Some.
  assert (Z.to_nat i ≠ Z.to_nat j) as Hnat by lia.
  pose proof (steppedBoard_pieces _ i j src tgt mover Hnat Hlsrc Ha Hltgt)
    as Hcount.
  rewrite Hd in Hcount.
  split_and!; [| | | lia].
  - apply at_index_Some. split; [lia |].
    rewrite (steppedBoard_lookup _ i j i src tgt mover Hnat Hlsrc Hltgt).
    rewrite decide_True by reflexivity. rewrite Hisrc, Hrs. reflexivity.
  - apply at_index_Some. split; [lia |].
    rewrite (steppedBoard_lookup _ i j j src tgt mover Hnat Hlsrc Hltgt).
    rewrite decide_False by done. rewrite decide_True by reflexivity.
    rewrite Hitgt, Hrt, Hd. reflexivity.
  - intros k Hki Hkj. unfold at_index. destruct (decide (0 ≤ k)); [| reflexivity].
    rewrite (steppedBoard_lookup _ i j k src tgt mover Hnat Hlsrc Hltgt).
    rewrite !decide_False by lia. reflexivity.
Qed.

(** The Red Rat of cell 5 enters the Center. *)
Lemma plain_move_outcome_witness :
  ∃ gs',
    handleMove PVP false (inPlay ratByCenter RED) (mkMove (Some 5) 16 false)
    = Committed gs'
    ∧ at_index (board gs') 5 = Some (mkCell 5 None true)
    ∧ at_index (board gs') 16 = Some (mkCell 16 (Some redRat) true).
Proof.
  destruct (plain_move_outcome PVP false (inPlay ratByCenter RED)
              [mkMove (Some 5) 4 false; mkMove (Some 5) 6 false;
               mkMove (Some 5) 1 false; mkMove (Some 5) 9 false;
               mkMove (Some 5) 16 false] 5 16
              (mkCell 5 (Some redRat) true) (mkCell 16 None true) redRat)
    as (gs' & Hgo & Hsrc & Htgt & _).
  - apply wf_board_check; reflexivity.
  - reflexivity.
  - vm_compute. reflexivity.
  - do 4 right. left.
  - reflexivity.
  - reflexivity.
  - reflexivity.
  - reflexivity.
  - exists gs'. split_and!; assumption.
Defined.

(** ** The automated player *)







(** The last move of [blueWinsGame] leaves Blue alone on the board. *)
Lemma winner_one_color_left_witness :
  winner (play blueWinsGame (initGame INITIAL_DECK)) = Some (Won BLUE).
Proof.
  destruct (winner_one_color_left PVP false
              (play (take 27 blueWinsGame) (initGame INITIAL_DECK))
              (mkMove (Some 14) 13 false)
              (play blueWinsGame (initGame INITIAL_DECK))) as (Hblue & _).
  - vm_compute. reflexivity.
  - vm_compute. reflexivity.
  - apply Hblue; vm_compute; [reflexivity | lia].
Defined.
